(** * get_weather.py: a verification development

    The script [docs/get_weather/get_weather.py] reads an API key from the
    process environment, performs one HTTP GET against the Weatherstack API,
    decodes the JSON body, projects five fields out of it and prints twice.

    The development embeds the script's four functions and its module body
    over a model of the Python values the script handles, of the process
    (environment, network, output streams) and of the two library modules it
    calls into ([json] and [requests]), and proves properties of them. *)

From Stdlib Require Import List String Ascii ZArith NArith Lia Bool Decimal.
From Stdlib Require DecimalZ DecimalPos DecimalFacts.
Import ListNotations.

Local Open Scope N_scope.

(** ** Text

    A Python [str] is a sequence of Unicode code points. *)

Definition str := list N.

(** The [str] spelled by an ASCII literal of the development. *)
Definition lit (s : string) : str :=
  List.map N_of_ascii (list_ascii_of_string s).

Fixpoint str_eqb (a b : str) : bool :=
  match a, b with
  | [], [] => true
  | x :: a', y :: b' => (x =? y) && str_eqb a' b'
  | _, _ => false
  end.

(** ** Values

    The Python objects that reach the script: what [json.loads] builds, and
    the arguments a caller may hand to [search_weather].  A [dict] keeps its
    items in insertion order; its keys are [str] and pairwise distinct.  A
    [float] is kept as the literal that denotes it, because the development
    does not compute with binary64. *)

Unset Elimination Schemes.
Inductive value : Type :=
| VNone
| VBool (b : bool)
| VInt (n : Z)
| VFloat (literal : str)
| VStr (s : str)
| VList (items : list value)
| VDict (items : list (str * value)).
Set Elimination Schemes.

(** [d.get(k)] on the items of a dict. *)
Fixpoint dict_get (d : list (str * value)) (k : str) : option value :=
  match d with
  | [] => None
  | (k', v) :: d' => if str_eqb k k' then Some v else dict_get d' k
  end.

(** [d[k] = v] on the items of a dict: an existing key keeps its place. *)
Fixpoint dict_set (d : list (str * value)) (k : str) (v : value)
  : list (str * value) :=
  match d with
  | [] => [(k, v)]
  | (k', v') :: d' =>
      if str_eqb k k' then (k', v) :: d' else (k', v') :: dict_set d' k v
  end.

(** [dict(pairs)]. *)
Definition dict_of_pairs (pairs : list (str * value)) : list (str * value) :=
  fold_left (fun d kv => dict_set d (fst kv) (snd kv)) pairs [].

(** ** Exceptions *)

Inductive exn_class : Type :=
| KeyError
| TypeError
| HTTPError            (* requests.HTTPError *)
| JSONDecodeError      (* requests.exceptions.JSONDecodeError *)
| ValueError
| RecursionError
| ConnectionError      (* requests.ConnectionError *)
| Timeout              (* requests.Timeout *)
| OtherException (name : str)   (* any further subclass of Exception *)
| KeyboardInterrupt
| SystemExit.

(** [issubclass(c, Exception)]: every class above but the two that derive
    from [BaseException] directly. *)
Definition is_Exception (c : exn_class) : bool :=
  match c with
  | KeyboardInterrupt | SystemExit => false
  | _ => true
  end.

Definition is_HTTPError (c : exn_class) : bool :=
  match c with
  | HTTPError => true
  | _ => false
  end.

(** An exception object: its class and the text [str(err)] gives. *)
Record exn : Type := Exn { exn_class_of : exn_class; exn_text : str }.

Inductive outcome (A : Type) : Type :=
| Return (a : A)
| Raise (e : exn).
Arguments Return {A} a.
Arguments Raise {A} e.

(** The three ways [json.loads] fails: the document is not JSON
    (JSONDecodeError), an integer of it has more digits than [int] converts
    (ValueError), or it nests deeper than the interpreter recurses
    (RecursionError). *)
Inductive decode_error : Type :=
| Malformed
| DigitLimit
| RecursionLimit.

Definition decode_error_class (why : decode_error) : exn_class :=
  match why with
  | Malformed => JSONDecodeError
  | DigitLimit => ValueError
  | RecursionLimit => RecursionError
  end.

(** ** What the interpreter and the libraries decide

    Some texts depend on tables or algorithms outside the script (the Unicode
    database, shortest round-trip float printing, the wording of messages that
    changes between interpreter versions), and how deep a document may nest
    depends on the recursion limit of the interpreter and on the depth of the
    call.  The development is parametric in them.

    The response of the service nests two levels, a mapping of mappings.
    An interpreter that runs the script has room for them; [decoder_room] and
    [encoder_room] count the levels it has beyond these two. *)

Class Interp : Type := {
  (** [repr(x)] of a str *)
  str_repr : str -> str;
  (** [repr(float(l))] for a float literal [l] *)
  float_repr : str -> str;
  (** the message of the TypeError of [v[k]] when [v] is not a mapping *)
  subscript_error_text : value -> str;
  (** the message of the exception [json.loads] raises for a document that it
      does not decode *)
  json_error_text : str -> str;
  (** which of the three failures that exception is *)
  json_error_kind : str -> decode_error;
  (** the message of the RecursionError of [json.dumps] *)
  recursion_error_text : str;
  (** the levels [json.loads] can nest, beyond two *)
  decoder_room : nat;
  (** the levels [json.dumps] can nest, beyond two *)
  encoder_room : nat
}.

Definition decoder_depth {interp : Interp} : nat := 2 + decoder_room.

Definition encoder_depth {interp : Interp} : nat := 2 + encoder_room.

(** ** Formatting

    [str(n)] of an int is its decimal numeral. *)

Fixpoint uint_str (d : Decimal.uint) : str :=
  match d with
  | Nil => []
  | D0 d => 48 :: uint_str d
  | D1 d => 49 :: uint_str d
  | D2 d => 50 :: uint_str d
  | D3 d => 51 :: uint_str d
  | D4 d => 52 :: uint_str d
  | D5 d => 53 :: uint_str d
  | D6 d => 54 :: uint_str d
  | D7 d => 55 :: uint_str d
  | D8 d => 56 :: uint_str d
  | D9 d => 57 :: uint_str d
  end.

Definition int_str (n : Z) : str :=
  match Z.to_int n with
  | Pos d => uint_str d
  | Neg d => 45 :: uint_str d
  end.

Definition is_digit (c : N) : bool := (48 <=? c) && (c <=? 57).

(** The number of decimal digits in a numeral. *)
Definition decimal_digits (numeral : str) : nat :=
  List.length (List.filter is_digit numeral).

(** [sys.int_info.default_max_str_digits]: the conversions between [int] and
    [str] raise ValueError beyond this many digits.  The script leaves the
    limit as it is. *)
Definition int_max_str_digits : nat := 4300.

(** The ValueError of [int.__repr__] beyond the digit limit. *)
Definition int_repr_error : exn :=
  Exn ValueError
    (lit "Exceeds the limit (4300 digits) for integer string conversion; use sys.set_int_max_str_digits() to increase the limit").

(** Every int of the value has at most [int_max_str_digits] digits. *)
Fixpoint ints_in_range (v : value) : bool :=
  match v with
  | VInt n => (decimal_digits (int_str n) <=? int_max_str_digits)%nat
  | VList items => forallb ints_in_range items
  | VDict items => forallb (fun kv => ints_in_range (snd kv)) items
  | _ => true
  end.

(** [sep.join(parts)]. *)
Fixpoint join (sep : str) (parts : list str) : str :=
  match parts with
  | [] => []
  | [p] => p
  | p :: ps => p ++ sep ++ join sep ps
  end.

Section Formatting.
Context {interp : Interp}.

(** [repr(v)]. *)
Fixpoint py_repr (v : value) : str :=
  match v with
  | VNone => lit "None"
  | VBool true => lit "True"
  | VBool false => lit "False"
  | VInt n => int_str n
  | VFloat l => float_repr l
  | VStr s => str_repr s
  | VList items =>
      lit "[" ++ join (lit ", ") (List.map py_repr items) ++ lit "]"
  | VDict items =>
      lit "{"
      ++ join (lit ", ")
           (List.map (fun kv => str_repr (fst kv) ++ lit ": " ++ py_repr (snd kv))
              items)
      ++ lit "}"
  end.

(** The text of [str(v)]. *)
Definition py_str (v : value) : str :=
  match v with
  | VStr s => s
  | _ => py_repr v
  end.

(** What an f-string field [{v}] inserts: [str(v)], which raises when it
    comes to an int beyond the digit limit. *)
Definition format_field (v : value) : outcome str :=
  if ints_in_range v then Return (py_str v) else Raise int_repr_error.

End Formatting.

(** ** The [json] module: [dumps]

    [json.dumps(obj, indent=...)] with the other options at their defaults
    ([ensure_ascii=True], [allow_nan=True], [sort_keys=False]), after
    [json/encoder.py].  With an indent the encoder is the one written in
    Python, [_make_iterencode]. *)

Definition hex_digit (n : N) : N :=
  if n <? 10 then 48 + n else 87 + n.

(** Four lower-case hexadecimal digits, for [n < 0x10000]. *)
Definition hex4 (n : N) : str :=
  [ hex_digit (n / 4096 mod 16); hex_digit (n / 256 mod 16);
    hex_digit (n / 16 mod 16); hex_digit (n mod 16) ].

(** The replacement [py_encode_basestring_ascii] makes for one character. *)
Definition escape_char (c : N) : str :=
  if c =? 34 then [92; 34]              (* backslash, quotation mark *)
  else if c =? 92 then [92; 92]         (* backslash, backslash *)
  else if c =? 10 then [92; 110]        (* backslash, n *)
  else if c =? 13 then [92; 114]        (* backslash, r *)
  else if c =? 9 then [92; 116]         (* backslash, t *)
  else if c =? 8 then [92; 98]          (* backslash, b *)
  else if c =? 12 then [92; 102]        (* backslash, f *)
  else if (32 <=? c) && (c <=? 126) then [c]
  else if c <? 65536 then 92 :: 117 :: hex4 c
  else
    let n := c - 65536 in
    let s1 := N.lor 55296 (N.land (N.shiftr n 10) 1023) in
    let s2 := N.lor 56320 (N.land n 1023) in
    (92 :: 117 :: hex4 s1) ++ (92 :: 117 :: hex4 s2).

Definition encode_basestring_ascii (s : str) : str :=
  34 :: flat_map escape_char s ++ [34].

(** A new line and [indent * level] spaces, or nothing without an indent. *)
Definition newline_indent (indent : option nat) (level : nat) : str :=
  match indent with
  | None => []
  | Some n => 10 :: repeat 32 (n * level)
  end.

(** The item separator: a comma and a space without an indent, a comma and a new line
    with one. *)
Definition item_separator (indent : option nat) (level : nat) : str :=
  match indent with
  | None => [44; 32]
  | Some _ => 44 :: newline_indent indent level
  end.

Section Dumps.
Context {interp : Interp}.

(** [floatstr]: the repr of the float, but for the three that JSON lacks. *)
Definition floatstr (l : str) : str :=
  let text := float_repr l in
  if str_eqb text (lit "nan") then lit "NaN"
  else if str_eqb text (lit "inf") then lit "Infinity"
  else if str_eqb text (lit "-inf") then lit "-Infinity"
  else text.

(** [_iterencode(v, level)], its chunks joined. *)
Fixpoint iterencode (indent : option nat) (level : nat) (v : value) : str :=
  match v with
  | VNone => lit "null"
  | VBool true => lit "true"
  | VBool false => lit "false"
  | VInt n => int_str n
  | VFloat l => floatstr l
  | VStr s => encode_basestring_ascii s
  | VList [] => lit "[]"
  | VList items =>
      lit "[" ++ newline_indent indent (S level)
      ++ join (item_separator indent (S level))
           (List.map (iterencode indent (S level)) items)
      ++ newline_indent indent level ++ lit "]"
  | VDict [] => lit "{}"
  | VDict items =>
      lit "{" ++ newline_indent indent (S level)
      ++ join (item_separator indent (S level))
           (List.map (fun kv =>
                        encode_basestring_ascii (fst kv) ++ lit ": "
                        ++ iterencode indent (S level) (snd kv))
              items)
      ++ newline_indent indent level ++ lit "}"
  end.

(** The JSON text of [v]: what [json.dumps] returns when it returns. *)
Definition json_text (indent : option nat) (v : value) : str :=
  iterencode indent 0 v.

(** What stops the encoder, if anything, the first in the order in which it
    writes.  An int is written by [int.__repr__], which refuses one of more
    than [int_max_str_digits] digits.  A list or dict that is not empty is
    written by a generator of its own, which calls into the interpreter: it
    needs a level of the [room] that is left, and its items have one level
    less.  A float is written by the function [floatstr], which needs a level
    too.  Nothing else needs one. *)
Fixpoint encoder_failure (room : nat) (v : value) {struct v} : option exn :=
  match v with
  | VInt n =>
      if (int_max_str_digits <? decimal_digits (int_str n))%nat
      then Some int_repr_error
      else None
  | VFloat _ =>
      match room with
      | O => Some (Exn RecursionError recursion_error_text)
      | S _ => None
      end
  | VList items =>
      match items, room with
      | [], _ => None
      | _ :: _, O => Some (Exn RecursionError recursion_error_text)
      | _ :: _, S room' =>
          (fix first (l : list value) : option exn :=
             match l with
             | [] => None
             | x :: l' =>
                 match encoder_failure room' x with
                 | Some e => Some e
                 | None => first l'
                 end
             end) items
      end
  | VDict items =>
      match items, room with
      | [], _ => None
      | _ :: _, O => Some (Exn RecursionError recursion_error_text)
      | _ :: _, S room' =>
          (fix first (l : list (str * value)) : option exn :=
             match l with
             | [] => None
             | kv :: l' =>
                 match encoder_failure room' (snd kv) with
                 | Some e => Some e
                 | None => first l'
                 end
             end) items
      end
  | _ => None
  end.

Definition json_dumps (indent : nat) (v : value) : outcome str :=
  match encoder_failure encoder_depth v with
  | Some e => Raise e
  | None => Return (json_text (Some indent) v)
  end.

End Dumps.

(** ** The [json] module: [loads]

    [json.loads(s)] with the default decoder, after [json/decoder.py] and
    [json/scanner.py].  The scanner works on the text that remains; a scan
    gives the value and the rest, or nothing where [loads] raises. *)

Definition is_ws (c : N) : bool :=
  (c =? 32) || (c =? 9) || (c =? 10) || (c =? 13).

Fixpoint skip_ws (s : str) : str :=
  match s with
  | c :: r => if is_ws c then skip_ws r else s
  | [] => []
  end.

Definition hex_value (c : N) : option N :=
  if (48 <=? c) && (c <=? 57) then Some (c - 48)
  else if (97 <=? c) && (c <=? 102) then Some (c - 87)
  else if (65 <=? c) && (c <=? 70) then Some (c - 55)
  else None.

(** [_decode_uXXXX] on the four characters after the [u]. *)
Definition decode_uXXXX (h1 h2 h3 h4 : N) : option N :=
  match hex_value h1, hex_value h2, hex_value h3, hex_value h4 with
  | Some a, Some b, Some c, Some d => Some (((a * 16 + b) * 16 + c) * 16 + d)
  | _, _, _, _ => None
  end.

(** The table [BACKSLASH] of the one-letter escapes. *)
Definition backslash_table (c : N) : option N :=
  if c =? 34 then Some 34
  else if c =? 92 then Some 92
  else if c =? 47 then Some 47
  else if c =? 98 then Some 8
  else if c =? 102 then Some 12
  else if c =? 110 then Some 10
  else if c =? 114 then Some 13
  else if c =? 116 then Some 9
  else None.

Definition is_high_surrogate (n : N) : bool := (55296 <=? n) && (n <=? 56319).
Definition is_low_surrogate (n : N) : bool := (56320 <=? n) && (n <=? 57343).

(** What follows a first escape that named a high surrogate: no second
    escape, a malformed one, or one that names [uni2]. *)
Inductive lookahead : Type :=
| NoEscape
| BadEscape
| Unit (uni2 : N).

Definition second_unit (s : str) : lookahead :=
  match s with
  | b :: u :: t =>
      if (b =? 92) && (u =? 117) then
        match t with
        | g1 :: g2 :: g3 :: g4 :: _ =>
            match decode_uXXXX g1 g2 g3 g4 with
            | Some uni2 => Unit uni2
            | None => BadEscape
            end
        | _ => BadEscape
        end
      else NoEscape
  | _ => NoEscape
  end.

Definition push {A} (c : A) (o : option (list A * str)) : option (list A * str) :=
  match o with
  | Some (t, rest) => Some (c :: t, rest)
  | None => None
  end.

(** [py_scanstring] in strict mode, from just after the opening quotation
    mark: the string's content and what follows its closing mark. *)
Fixpoint scanstring (s : str) : option (str * str) :=
  match s with
  | [] => None
  | c :: r =>
      if c =? 34 then Some ([], r)
      else if c =? 92 then
        match r with
        | [] => None
        | esc :: r1 =>
            if esc =? 117 then
              match r1 with
              | h1 :: h2 :: h3 :: h4 :: r2 =>
                  match decode_uXXXX h1 h2 h3 h4 with
                  | None => None
                  | Some uni =>
                      if is_high_surrogate uni then
                        match second_unit r2 with
                        | BadEscape => None
                        | NoEscape => push uni (scanstring r2)
                        | Unit uni2 =>
                            if is_low_surrogate uni2 then
                              match r2 with
                              | _ :: _ :: _ :: _ :: _ :: _ :: r3 =>
                                  push (65536 + N.lor (N.shiftl (uni - 55296) 10)
                                                  (uni2 - 56320))
                                    (scanstring r3)
                              | _ => None
                              end
                            else push uni (scanstring r2)
                        end
                      else push uni (scanstring r2)
                  end
              | _ => None
              end
            else
              match backslash_table esc with
              | Some ch => push ch (scanstring r1)
              | None => None
              end
        end
      else if c <? 32 then None
      else push c (scanstring r)
  end.

Fixpoint span_digits (s : str) : str * str :=
  match s with
  | c :: r =>
      if is_digit c then let (ds, rest) := span_digits r in (c :: ds, rest)
      else ([], s)
  | [] => ([], [])
  end.

(** The three groups of [NUMBER_RE]: an integer part without a leading
    zero, an optional fraction, an optional exponent. *)
Definition match_integer (s : str) : option (str * str) :=
  let (sign, s1) :=
    match s with
    | c :: r => if c =? 45 then ([45], r) else ([], s)
    | [] => ([], [])
    end in
  match s1 with
  | c :: r =>
      if c =? 48 then Some (sign ++ [48], r)
      else if is_digit c then
        let (ds, rest) := span_digits s1 in Some (sign ++ ds, rest)
      else None
  | [] => None
  end.

Definition match_frac (s : str) : str * str :=
  match s with
  | c :: r =>
      if c =? 46 then
        match span_digits r with
        | ([], _) => ([], s)
        | (ds, rest) => (46 :: ds, rest)
        end
      else ([], s)
  | [] => ([], [])
  end.

Definition match_exp (s : str) : str * str :=
  match s with
  | c :: r =>
      if (c =? 101) || (c =? 69) then
        let (sign, r1) :=
          match r with
          | d :: r' => if (d =? 45) || (d =? 43) then ([d], r') else ([], r)
          | [] => ([], [])
          end in
        match span_digits r1 with
        | ([], _) => ([], s)
        | (ds, rest) => (c :: sign ++ ds, rest)
        end
      else ([], s)
  | [] => ([], [])
  end.

Definition digit_of (c : N) (d : Decimal.uint) : Decimal.uint :=
  if c =? 48 then D0 d else if c =? 49 then D1 d else if c =? 50 then D2 d
  else if c =? 51 then D3 d else if c =? 52 then D4 d else if c =? 53 then D5 d
  else if c =? 54 then D6 d else if c =? 55 then D7 d else if c =? 56 then D8 d
  else D9 d.

Fixpoint uint_of_digits (s : str) : Decimal.uint :=
  match s with
  | [] => Nil
  | c :: r => digit_of c (uint_of_digits r)
  end.

(** [int(text)] for a text the integer group matched, within the digit
    limit. *)
Definition int_of_text (s : str) : Z :=
  match s with
  | c :: r =>
      if c =? 45 then Z.of_int (Neg (uint_of_digits r))
      else Z.of_int (Pos (uint_of_digits s))
  | [] => 0%Z
  end.

(** [match_number]: a float when there is a fraction or an exponent, an int
    otherwise; [int] refuses more than [int_max_str_digits] digits. *)
Definition match_number (s : str) : option (value * str) :=
  match match_integer s with
  | None => None
  | Some (integer, r) =>
      let (frac, r1) := match_frac r in
      let (exp, r2) := match_exp r1 in
      match frac, exp with
      | [], [] =>
          if (int_max_str_digits <? decimal_digits integer)%nat then None
          else Some (VInt (int_of_text integer), r2)
      | _, _ => Some (VFloat (integer ++ frac ++ exp), r2)
      end
  end.

(** [s[idx:idx + len(p)] == p], with what follows. *)
Fixpoint strip_prefix (p s : str) : option str :=
  match p with
  | [] => Some s
  | c :: p' =>
      match s with
      | d :: s' => if c =? d then strip_prefix p' s' else None
      | [] => None
      end
  end.

(** The cases of [_scan_once] other than strings, objects and arrays, in
    its order. *)
Definition scan_constant (s : str) : option (value * str) :=
  match strip_prefix (lit "null") s with
  | Some r => Some (VNone, r)
  | None =>
  match strip_prefix (lit "true") s with
  | Some r => Some (VBool true, r)
  | None =>
  match strip_prefix (lit "false") s with
  | Some r => Some (VBool false, r)
  | None =>
  match match_number s with
  | Some res => Some res
  | None =>
  match strip_prefix (lit "NaN") s with
  | Some r => Some (VFloat (lit "NaN"), r)
  | None =>
  match strip_prefix (lit "Infinity") s with
  | Some r => Some (VFloat (lit "Infinity"), r)
  | None =>
  match strip_prefix (lit "-Infinity") s with
  | Some r => Some (VFloat (lit "-Infinity"), r)
  | None => None
  end end end end end end end.

(** [_scan_once], [JSONArray] and [JSONObject].  [fuel] bounds the number of
    nested calls; [scan_elements] starts at an element, [scan_members] just
    after the quotation mark that opens a key.  [depth] is the number of
    arrays and objects that may still be entered, one inside the other: the
    scanner enters the interpreter's recursion check at every opening
    bracket, before it looks at what follows, and [loads] raises
    RecursionError when the check fails. *)
Fixpoint scan_once (fuel depth : nat) (s : str) {struct fuel}
  : option (value * str) :=
  match fuel with
  | O => None
  | S fuel =>
      match s with
      | [] => None
      | c :: r =>
          if c =? 34 then
            match scanstring r with
            | Some (t, rest) => Some (VStr t, rest)
            | None => None
            end
          else if c =? 123 then
            match depth with
            | O => None
            | S depth =>
                match skip_ws r with
                | d :: r1 =>
                    if d =? 125 then Some (VDict [], r1)
                    else if d =? 34 then
                      match scan_members fuel depth r1 with
                      | Some (pairs, rest) =>
                          Some (VDict (dict_of_pairs pairs), rest)
                      | None => None
                      end
                    else None
                | [] => None
                end
            end
          else if c =? 91 then
            match depth with
            | O => None
            | S depth =>
                match skip_ws r with
                | d :: r1 =>
                    if d =? 93 then Some (VList [], r1)
                    else
                      match scan_elements fuel depth (d :: r1) with
                      | Some (values, rest) => Some (VList values, rest)
                      | None => None
                      end
                | [] => None
                end
            end
          else scan_constant s
      end
  end

with scan_elements (fuel depth : nat) (s : str) {struct fuel}
  : option (list value * str) :=
  match fuel with
  | O => None
  | S fuel =>
      match scan_once fuel depth s with
      | None => None
      | Some (v, r) =>
          match skip_ws r with
          | c :: r1 =>
              if c =? 93 then Some ([v], r1)
              else if c =? 44 then
                push v (scan_elements fuel depth (skip_ws r1))
              else None
          | [] => None
          end
      end
  end

with scan_members (fuel depth : nat) (s : str) {struct fuel}
  : option (list (str * value) * str) :=
  match fuel with
  | O => None
  | S fuel =>
      match scanstring s with
      | None => None
      | Some (key, r) =>
          match skip_ws r with
          | c :: r1 =>
              if c =? 58 then
                match scan_once fuel depth (skip_ws r1) with
                | None => None
                | Some (v, r2) =>
                    match skip_ws r2 with
                    | d :: r3 =>
                        if d =? 125 then Some ([(key, v)], r3)
                        else if d =? 44 then
                          match skip_ws r3 with
                          | q :: r4 =>
                              if q =? 34 then
                                push (key, v) (scan_members fuel depth r4)
                              else None
                          | [] => None
                          end
                        else None
                    | [] => None
                    end
                end
              else None
          | [] => None
          end
      end
  end.

(** [json.loads]: leading white space, one value, trailing white space and
    nothing more.  The fuel is enough for any text: no scan nests deeper than
    twice the length of what it consumes ([json_loads_enough_fuel]). *)
Definition json_loads {interp : Interp} (s : str) : option value :=
  match scan_once (2 * List.length s + 2) decoder_depth (skip_ws s) with
  | Some (v, rest) =>
      match skip_ws rest with
      | [] => Some v
      | _ :: _ => None
      end
  | None => None
  end.

(** ** The process

    What the script can observe and change: the environment variables, the
    bindings [load_dotenv] finds in a [.env] file, in the order of the file
    and as the library has parsed and expanded them (none when there is no
    file; a name may be bound more than once, and a binding may lack a
    value), what the network answers to a GET, and a log of the effects so
    far. *)

Inductive event : Type :=
| LoadDotenv                 (* load_dotenv() ran *)
| Getenv (name : str)        (* os.getenv(name) *)
| HttpGet (url : str)        (* requests.get(url) *)
| Stdout (text : str)        (* print(text), which writes to sys.stdout *)
| Stderr (text : str).       (* a write to sys.stderr *)

(** A [requests.Response], as far as the script looks at it. *)
Record Response : Type := {
  status_code : Z;
  reason : str;
  url : str;
  text : str     (* the body, decoded *)
}.

Inductive get_result : Type :=
| Responds (r : Response)
| Fails (e : exn).

Record World : Type := {
  environ : list (str * str);
  dotenv : list (str * option str);
  network : str -> get_result;
  log : list event
}.

Definition record (ev : event) (w : World) : World :=
  {| environ := environ w; dotenv := dotenv w; network := network w;
     log := log w ++ [ev] |}.

Definition with_environ (env : list (str * str)) (w : World) : World :=
  {| environ := env; dotenv := dotenv w; network := network w; log := log w |}.

(** What has been printed, one text per call of [print]. *)
Definition printed (w : World) : list str :=
  flat_map (fun ev => match ev with Stdout t => [t] | _ => [] end) (log w).

(** What has been written to the standard error stream. *)
Definition errors_written (w : World) : list str :=
  flat_map (fun ev => match ev with Stderr t => [t] | _ => [] end) (log w).

(** The URLs requested. *)
Definition requested (w : World) : list str :=
  flat_map (fun ev => match ev with HttpGet u => [u] | _ => [] end) (log w).

(** Computations that read and change the process and may raise. *)
Definition M (A : Type) : Type := World -> outcome A * World.

Definition ret {A} (a : A) : M A := fun w => (Return a, w).

Definition raise {A} (e : exn) : M A := fun w => (Raise e, w).

Definition bind {A B} (c : M A) (k : A -> M B) : M B :=
  fun w =>
    match c w with
    | (Return a, w') => k a w'
    | (Raise e, w') => (Raise e, w')
    end.

Definition lift {A} (o : outcome A) : M A := fun w => (o, w).

(** [try: body / except ... as err: handler err]; a handler that does not
    match re-raises. *)
Definition try_except {A} (body : M A) (handler : exn -> M A) : M A :=
  fun w =>
    match body w with
    | (Return a, w') => (Return a, w')
    | (Raise e, w') => handler e w'
    end.

Notation "x <- c ;; k" := (bind c (fun x => k))
  (at level 61, c at next level, right associativity).
Notation "c ;;; k" := (bind c (fun _ => k))
  (at level 61, right associativity).

Fixpoint env_get (env : list (str * str)) (name : str) : option str :=
  match env with
  | [] => None
  | (k, v) :: env' => if str_eqb name k then Some v else env_get env' name
  end.

(** [d[k] = v] on the items of the dict python-dotenv collects the bindings
    in: an existing name keeps its place and takes the new value. *)
Fixpoint binding_set (d : list (str * option str)) (k : str) (v : option str)
  : list (str * option str) :=
  match d with
  | [] => [(k, v)]
  | (k', v') :: d' =>
      if str_eqb k k' then (k', v) :: d' else (k', v') :: binding_set d' k v
  end.

(** [DotEnv.dict()]: the bindings of the file gathered in a dict, so that
    the last binding of a name is the one that counts. *)
Definition dotenv_dict (bindings : list (str * option str))
  : list (str * option str) :=
  fold_left (fun d kv => binding_set d (fst kv) (snd kv)) bindings [].

(** [d.get(k)] on that dict. *)
Fixpoint binding_get (d : list (str * option str)) (k : str)
  : option (option str) :=
  match d with
  | [] => None
  | (k', v) :: d' => if str_eqb k k' then Some v else binding_get d' k
  end.

(** One step of [set_as_environment_variables] with [override=False]: an item
    of the dict is added to [os.environ] unless the variable is already set or
    the item has no value. *)
Definition add_binding (env : list (str * str)) (kv : str * option str)
  : list (str * str) :=
  match env_get env (fst kv), snd kv with
  | None, Some v => env ++ [(fst kv, v)]
  | _, _ => env
  end.

(** [load_dotenv()] of python-dotenv. *)
Definition load_dotenv : M unit :=
  fun w =>
    (Return tt,
     record LoadDotenv
       (with_environ
          (fold_left add_binding (dotenv_dict (dotenv w)) (environ w)) w)).

(** [os.getenv(name)]. *)
Definition os_getenv (name : str) : M value :=
  fun w =>
    (Return match env_get (environ w) name with
            | Some v => VStr v
            | None => VNone
            end,
     record (Getenv name) w).

(** [requests.get(url)]. *)
Definition requests_get (u : str) : M Response :=
  fun w =>
    (match network w u with
     | Responds r => Return r
     | Fails e => Raise e
     end,
     record (HttpGet u) w).

(** [Response.raise_for_status()] of requests: an HTTPError for a status of
    400 to 599, nothing otherwise. *)
Definition raise_for_status (r : Response) : M unit :=
  if ((400 <=? status_code r) && (status_code r <? 500))%Z then
    raise (Exn HTTPError
             (int_str (status_code r) ++ lit " Client Error: " ++ reason r
              ++ lit " for url: " ++ url r))
  else if ((500 <=? status_code r) && (status_code r <? 600))%Z then
    raise (Exn HTTPError
             (int_str (status_code r) ++ lit " Server Error: " ++ reason r
              ++ lit " for url: " ++ url r))
  else ret tt.

(** [print(text)]. *)
Definition print (t : str) : M unit :=
  fun w => (Return tt, record (Stdout t) w).

(** ** The script *)

Section Script.
Context {interp : Interp}.

(** [Response.json()]. *)
Definition response_json (r : Response) : M value :=
  match json_loads (text r) with
  | Some v => ret v
  | None =>
      raise (Exn (decode_error_class (json_error_kind (text r)))
               (json_error_text (text r)))
  end.

(** [load_environment], lines 10-20. *)
Definition load_environment : M value :=
  load_dotenv ;;;
  API_KEY <- os_getenv (lit "WEATHER_API") ;;
  ret API_KEY.

(** The f-string of line 43. *)
Definition request_url (location API_KEY : value) : str :=
  lit "https://api.weatherstack.com/current?query=" ++ py_str location
  ++ lit "&access_key=" ++ py_str API_KEY.

(** [isinstance(v, str)]. *)
Definition isinstance_str (v : value) : bool :=
  match v with
  | VStr _ => true
  | _ => false
  end.

(** Lines 46-48: the body of the [try]. *)
Definition attempt (URL : str) : M value :=
  response <- requests_get URL ;;
  raise_for_status response ;;;
  response_json response.

(** Lines 45-54: the [try], its two handlers and the final [return {}]. *)
Definition fetch (URL : str) : M value :=
  try_except (attempt URL)
    (fun err =>
       if is_HTTPError (exn_class_of err) then
         print (lit "HTTP error occurred: " ++ exn_text err) ;;;
         ret (VDict [])
       else if is_Exception (exn_class_of err) then
         print (lit "Other error occurred: " ++ exn_text err) ;;;
         ret (VDict [])
       else raise err).

(** [search_weather], lines 23-54. *)
Definition search_weather (location : value) : M value :=
  if negb (isinstance_str location) then
    raise (Exn TypeError (lit "Input must be a string."))
  else
    API_KEY <- load_environment ;;
    let URL := request_url location API_KEY in
    fetch URL.

(** [v[k]] for a [str] key [k]. *)
Definition getitem (v : value) (k : str) : outcome value :=
  match v with
  | VDict d =>
      match dict_get d k with
      | Some x => Return x
      | None => Raise (Exn KeyError (str_repr k))
      end
  | _ => Raise (Exn TypeError (subscript_error_text v))
  end.

Definition bind_o {A B} (c : outcome A) (k : A -> outcome B) : outcome B :=
  match c with
  | Return a => k a
  | Raise e => Raise e
  end.

(** [data[k1][k2]]. *)
Definition getitem2 (data : value) (k1 k2 : str) : outcome value :=
  bind_o (getitem data k1) (fun inner => getitem inner k2).

(** The five fields the extractor reads, as pairs of keys. *)
Definition source_fields : list (str * str) :=
  [ (lit "location", lit "name"); (lit "location", lit "region");
    (lit "location", lit "localtime"); (lit "current", lit "temperature");
    (lit "current", lit "feelslike") ].

(** [extract_weather_info], lines 57-78.  The dict display evaluates its five
    values from top to bottom; the first subscript that raises ends it. *)
Definition extract_weather_info (data : value) : outcome value :=
  bind_o (getitem2 data (lit "location") (lit "name")) (fun name =>
  bind_o (getitem2 data (lit "location") (lit "region")) (fun region =>
  bind_o (getitem2 data (lit "location") (lit "localtime")) (fun local_time =>
  bind_o (getitem2 data (lit "current") (lit "temperature")) (fun temperature =>
  bind_o (getitem2 data (lit "current") (lit "feelslike")) (fun feels_like =>
  Return (VDict [ (lit "name", name);
                  (lit "region", region);
                  (lit "local_time", local_time);
                  (lit "temperature", temperature);
                  (lit "feels_like", feels_like) ])))))).

(** [inspect_response], lines 81-92. *)
Definition inspect_response (weather_response : value) : outcome str :=
  let result := json_dumps 4 weather_response in
  result.

(** The f-string of line 102: the three subscripts, each followed by its
    conversion, from left to right. *)
Definition sentence (weather_summary : value) : outcome str :=
  bind_o (getitem weather_summary (lit "name")) (fun name =>
  bind_o (format_field name) (fun name_text =>
  bind_o (getitem weather_summary (lit "temperature")) (fun temperature =>
  bind_o (format_field temperature) (fun temperature_text =>
  bind_o (getitem weather_summary (lit "feels_like")) (fun feels_like =>
  bind_o (format_field feels_like) (fun feels_like_text =>
  Return (lit "The temperature in " ++ name_text ++ lit " is "
          ++ temperature_text ++ lit " degrees Celcius and feels like "
          ++ feels_like_text ++ lit " degrees."))))))).

(** The module body, lines 95-103. *)
Definition script : M unit :=
  weather_data <- search_weather (VStr (lit "Athens")) ;;
  shown <- lift (inspect_response weather_data) ;;
  print shown ;;;
  weather_summary <- lift (extract_weather_info weather_data) ;;
  line <- lift (sentence weather_summary) ;;
  print line.

End Script.

(** ** Notions the statements use *)

(** The field [k1.k2] of a raw response, if the response has it: the value
    under [k2] in the mapping under [k1]. *)
Definition source_field (data : value) (k1 k2 : str) : option value :=
  match data with
  | VDict d =>
      match dict_get d k1 with
      | Some (VDict inner) => dict_get inner k2
      | _ => None
      end
  | _ => None
  end.

(** The value under [k], when there is one, is a mapping. *)
Definition mapping_if_present (d : list (str * value)) (k : str) : Prop :=
  match dict_get d k with
  | Some (VDict _) | None => True
  | Some _ => False
  end.

(** The variable is unset when [os.getenv] looks it up: it is not in the
    environment of the process and the [.env] file gives it no value. *)
Definition unset (w : World) (name : str) : Prop :=
  env_get (environ w) name = None /\
  forall v, ~ In (name, Some v) (dotenv w).

(** The fetch fails in the way the two handlers catch: the request raises
    an [Exception], the status is 400 to 599, or the body does not decode. *)
Definition fetch_fails {interp : Interp} (w : World) (URL : str) : bool :=
  match network w URL with
  | Fails e => is_Exception (exn_class_of e)
  | Responds r =>
      ((400 <=? status_code r) && (status_code r <? 600))%Z
      || match json_loads (text r) with Some _ => false | None => true end
  end.

(** A text of Unicode characters: every code point is below 0x110000, and
    no high surrogate is followed by a low surrogate.  (Such a pair of code
    points is the way UTF-16 spells one character beyond 0xFFFF; JSON text
    has no way to tell the pair from the character.) *)
Fixpoint text_ok (s : str) : bool :=
  match s with
  | [] => true
  | c :: r =>
      (c <? 1114112)
      && negb (is_high_surrogate c
               && match r with d :: _ => is_low_surrogate d | [] => false end)
      && text_ok r
  end.

(** No key occurs twice. *)
Fixpoint keys_distinct (d : list (str * value)) : bool :=
  match d with
  | [] => true
  | kv :: d' =>
      negb (existsb (fun kv' => str_eqb (fst kv) (fst kv')) d')
      && keys_distinct d'
  end.

(** The text up to the first character that satisfies [p], and the text from
    that character on. *)
Fixpoint break_at (p : N -> bool) (s : str) : str * str :=
  match s with
  | [] => ([], [])
  | c :: r =>
      if p c then ([], s)
      else let (before, from) := break_at p r in (c :: before, from)
  end.

(** One digit at least, and digits only. *)
Definition all_digits (s : str) : bool :=
  match s with
  | [] => false
  | _ :: _ => forallb is_digit s
  end.

(** The integer part of a JSON number: a single digit, or digits that do not
    begin with a zero. *)
Definition is_integer_part (s : str) : bool :=
  match s with
  | [] => false
  | [c] => is_digit c
  | c :: _ :: _ => negb (c =? 48) && forallb is_digit s
  end.

Definition without_sign (minus plus : bool) (s : str) : str :=
  match s with
  | c :: r =>
      if (minus && (c =? 45)) || (plus && (c =? 43)) then r else s
  | [] => []
  end.

(** The literal of a finite float in JSON, after the grammar of numbers: a
    mantissa and, after an e, an exponent; the mantissa an integer part with
    an optional minus sign and, after a point, a fraction; the fraction and
    the exponent digits, the exponent with an optional sign; one of the two
    at least, or the number is an int. *)
Definition is_float_literal (l : str) : bool :=
  let (mantissa, exponent) := break_at (fun c => (c =? 101) || (c =? 69)) l in
  let (integer, fraction) := break_at (fun c => c =? 46) mantissa in
  is_integer_part (without_sign true false integer)
  && match fraction with
     | [] => true
     | _ :: digits => all_digits digits
     end
  && match exponent with
     | [] => true
     | _ :: signed => all_digits (without_sign true true signed)
     end
  && match fraction, exponent with
     | [], [] => false
     | _, _ => true
     end.

(** The number of arrays and objects of a value that are one inside the
    other: the levels the decoder enters to read it. *)
Fixpoint nesting (v : value) : nat :=
  match v with
  | VList items => S (fold_right (fun x n => Nat.max (nesting x) n) O items)
  | VDict items =>
      S (fold_right (fun kv n => Nat.max (nesting (snd kv)) n) O items)
  | _ => O
  end.

(** The levels the encoder needs to write a value: one for a float, one more
    than its items need for a list or dict that is not empty, none
    otherwise. *)
Fixpoint encoder_levels (v : value) : nat :=
  match v with
  | VFloat _ => 1
  | VList [] => O
  | VList items =>
      S (fold_right (fun x n => Nat.max (encoder_levels x) n) O items)
  | VDict [] => O
  | VDict items =>
      S (fold_right (fun kv n => Nat.max (encoder_levels (snd kv)) n) O items)
  | _ => O
  end.


(** What may follow a number for the number to end there. *)
Definition number_end (rest : str) : bool :=
  match rest with
  | [] => true
  | c :: _ => negb (is_digit c || (c =? 46) || (c =? 101) || (c =? 69))
  end.

(** No digit comes next. *)
Definition no_digit_ahead (s : str) : Prop :=
  match s with c :: _ => is_digit c = false | [] => True end.

(** What follows a value in a document: nothing, a comma, a new line or a
    closing bracket. *)
Definition value_end (rest : str) : bool :=
  match rest with
  | [] => true
  | c :: _ => (c =? 44) || (c =? 10) || (c =? 93) || (c =? 125)
  end.

(** The number of nested scans a value takes. *)
Fixpoint scans (v : value) : nat :=
  match v with
  | VList items => S (fold_right (fun x n => S (scans x + n)) O items)
  | VDict items => S (fold_right (fun kv n => S (scans (snd kv) + n)) O items)
  | _ => 1
  end.

Section Notions.
Context {interp : Interp}.

(** A finite float, kept as the literal [repr] gives it.  Every finite float
    has exactly one such literal, and it is a number of JSON with a fraction
    or an exponent. *)
Definition finite_float (l : str) : bool :=
  is_float_literal l && str_eqb (float_repr l) l.

(** The values of JSON: None, bools, ints, finite floats, texts of Unicode
    characters, lists, and dicts with distinct str keys. *)
Fixpoint json_compatible (v : value) : bool :=
  match v with
  | VNone | VBool _ | VInt _ => true
  | VFloat l => finite_float l
  | VStr s => text_ok s
  | VList items => forallb json_compatible items
  | VDict items =>
      keys_distinct items
      && forallb (fun kv => text_ok (fst kv) && json_compatible (snd kv)) items
  end.

(** The exceptions a subscript of the extractor can raise: the KeyError of a
    key that a mapping lacks, or the TypeError of subscripting a value that
    is not a mapping. *)
Inductive subscript_error : exn -> Prop :=
| missing_key (k : str) :
    In k [ lit "location"; lit "current"; lit "name"; lit "region";
           lit "localtime"; lit "temperature"; lit "feelslike" ] ->
    subscript_error (Exn KeyError (str_repr k))
| not_a_mapping (v : value) :
    (forall d, v <> VDict d) ->
    subscript_error (Exn TypeError (subscript_error_text v)).

(** Scanning the text of [v], whatever follows it, gives [v] back. *)
Definition scans_back (indent : option nat) (v : value) : Prop :=
  forall (level fuel depth : nat) (rest : str),
    (scans v <= fuel)%nat -> (nesting v <= depth)%nat ->
    value_end rest = true ->
    scan_once fuel depth (iterencode indent level v ++ rest) = Some (v, rest).

End Notions.

(** The four shapes of what [escape_char] writes. *)
Inductive escape_shape (c : N) : str -> Prop :=
| shape_short (e : N) :
    (e =? 117) = false -> backslash_table e = Some c ->
    escape_shape c [92; e]
| shape_plain :
    (c =? 34) = false -> (c =? 92) = false -> (c <? 32) = false ->
    escape_shape c [c]
| shape_unit :
    c < 65536 ->
    escape_shape c (92 :: 117 :: hex4 c)
| shape_pair (s1 s2 : N) :
    s1 < 65536 -> s2 < 65536 ->
    is_high_surrogate s1 = true -> is_low_surrogate s2 = true ->
    is_low_surrogate s1 = false ->
    65536 + N.lor (N.shiftl (s1 - 55296) 10) (s2 - 56320) = c ->
    escape_shape c ((92 :: 117 :: hex4 s1) ++ (92 :: 117 :: hex4 s2)).

Definition low_head (s : str) : bool :=
  match s with d :: _ => is_low_surrogate d | [] => false end.

(** What a value's text can begin with. *)
Definition value_start (c : N) : bool :=
  negb (is_ws c) && negb (c =? 93) && negb (c =? 125) && negb (c =? 44).


(** The key [load_environment] returns in [w]. *)
Definition credential (w : World) : value :=
  match fst (load_environment w) with
  | Return key => key
  | Raise _ => VNone
  end.

(** The text a handler of the fetch prints for the exception it caught. *)
Definition diagnostic (e : exn) : str :=
  (if is_HTTPError (exn_class_of e) then lit "HTTP error occurred: "
   else lit "Other error occurred: ") ++ exn_text e.

(** ** Concrete runs *)

(** The longest run of digits in a text, [run] digits having just been
    read. *)
Fixpoint longest_digit_run (s : str) (run : nat) : nat :=
  match s with
  | [] => run
  | c :: r =>
      if is_digit c then longest_digit_run r (S run)
      else Nat.max run (longest_digit_run r O)
  end.

(** The deepest level of brackets in a text, [level] of them being open. *)
Fixpoint deepest_bracket (s : str) (level : nat) : nat :=
  match s with
  | [] => level
  | c :: r =>
      if (c =? 91) || (c =? 123) then deepest_bracket r (S level)
      else if (c =? 93) || (c =? 125) then
        Nat.max level (deepest_bracket r (Nat.pred level))
      else deepest_bracket r level
  end.

(** The message of the ValueError of [int] for a numeral of [digits]
    digits. *)
Definition int_limit_message (digits : nat) : str :=
  lit "Exceeds the limit (4300 digits) for integer string conversion: value has "
  ++ int_str (Z.of_nat digits)
  ++ lit " digits; use sys.set_int_max_str_digits() to increase the limit".

(** An interpretation to run examples with: the messages of CPython 3.11
    for the subscripts, its recursion limit of 1000 less the frames that are
    open when the script calls into [json], and, for what the development
    does not compute, the value that is right on the examples (texts without
    a quotation mark or an escape for [repr]; float literals that are the
    repr of their float; documents that hold an integer beyond the digit
    limit, or arrays nested beyond the room of the decoder, or else are not
    JSON from their first character on). *)
Definition example_interp : Interp :=
  {| str_repr := fun s => lit "'" ++ s ++ lit "'";
     float_repr := fun l => l;
     subscript_error_text := fun v =>
       match v with
       | VNone => lit "'NoneType' object is not subscriptable"
       | VBool _ => lit "'bool' object is not subscriptable"
       | VInt _ => lit "'int' object is not subscriptable"
       | VFloat _ => lit "'float' object is not subscriptable"
       | VStr _ => lit "string indices must be integers, not 'str'"
       | VList _ => lit "list indices must be integers or slices, not str"
       | VDict _ => []
       end;
     json_error_text := fun doc =>
       if (int_max_str_digits <? longest_digit_run doc O)%nat
       then int_limit_message (longest_digit_run doc O)
       else if (991 <? deepest_bracket doc O)%nat
       then lit "maximum recursion depth exceeded while decoding a JSON array from a unicode string"
       else lit "Expecting value: line 1 column 1 (char 0)";
     json_error_kind := fun doc =>
       if (int_max_str_digits <? longest_digit_run doc O)%nat
       then DigitLimit
       else if (991 <? deepest_bracket doc O)%nat then RecursionLimit
       else Malformed;
     recursion_error_text :=
       lit "maximum recursion depth exceeded while calling a Python object";
     decoder_room := 989;
     encoder_room := 990 |}.

(** A process with the key set, nothing logged, and one answer to any GET. *)
Definition world_answering (answer : get_result) : World :=
  {| environ := [(lit "WEATHER_API", lit "k3y")];
     dotenv := [];
     network := fun _ => answer;
     log := [] |}.

(** The same without the key, and with a [.env] file that does not give it. *)
Definition world_without_key (answer : get_result) : World :=
  {| environ := [(lit "HOME", lit "/root")];
     dotenv := [(lit "DEBUG", Some (lit "1")); (lit "WEATHER_API", None)];
     network := fun _ => answer;
     log := [] |}.

Definition response_of (status : Z) (why body : str) : Response :=
  {| status_code := status; reason := why;
     url := lit "https://api.weatherstack.com/current?query=Athens&access_key=k3y";
     text := body |}.

(** The raw response of the end-to-end scenario. *)
Definition athens_raw : value :=
  VDict [ (lit "location",
           VDict [ (lit "name", VStr (lit "Athens"));
                   (lit "region", VStr (lit "Attica"));
                   (lit "localtime", VStr (lit "t")) ]);
          (lit "current",
           VDict [ (lit "temperature", VInt 20);
                   (lit "feelslike", VInt 19) ]) ].

(** The service answers with the raw response of the scenario. *)
Definition response_200 : Response :=
  response_of 200 (lit "OK") (@json_text example_interp None athens_raw).

Definition world_200 : World := world_answering (Responds response_200).

(** The service does not know the place. *)
Definition world_404 : World :=
  world_answering (Responds (response_of 404 (lit "Not Found") (lit "{}"))).

(** A status of 300, with a body that decodes. *)
Definition world_300 : World :=
  world_answering
    (Responds (response_of 300 (lit "Multiple Choices")
                 (@json_text example_interp None (VDict [(lit "a", VInt 1)])))).

(** The user interrupts the request. *)
Definition world_interrupted : World :=
  world_answering (Fails (Exn KeyboardInterrupt [])).

(** A raw response with the five fields. *)
Definition athens_2024 : value :=
  VDict [ (lit "location",
           VDict [ (lit "name", VStr (lit "Athens"));
                   (lit "region", VStr (lit "Attica"));
                   (lit "localtime", VStr (lit "2024-01-01 10:00")) ]);
          (lit "current",
           VDict [ (lit "temperature", VInt 15);
                   (lit "feelslike", VInt 13) ]) ].

(** The same fields among others, in another order. *)
Definition athens_2024_verbose : value :=
  VDict [ (lit "request", VDict [ (lit "type", VStr (lit "City")) ]);
          (lit "current",
           VDict [ (lit "observation_time", VStr (lit "08:00 AM"));
                   (lit "feelslike", VInt 13);
                   (lit "temperature", VInt 15);
                   (lit "weather_descriptions", VList [VStr (lit "Sunny")]) ]);
          (lit "location",
           VDict [ (lit "name", VStr (lit "Athens"));
                   (lit "country", VStr (lit "Greece"));
                   (lit "region", VStr (lit "Attica"));
                   (lit "localtime", VStr (lit "2024-01-01 10:00")) ]) ].

(** A mapping whose location is a text, not a mapping. *)
Definition flat_location : value :=
  VDict [ (lit "location", VStr (lit "Athens"));
          (lit "current",
           VDict [ (lit "temperature", VInt 20);
                   (lit "feelslike", VInt 19) ]) ].

(** The five-key summary of [athens_2024]. *)
Definition athens_summary : value :=
  VDict [ (lit "name", VStr (lit "Athens"));
          (lit "region", VStr (lit "Attica"));
          (lit "local_time", VStr (lit "2024-01-01 10:00"));
          (lit "temperature", VInt 15);
          (lit "feels_like", VInt 13) ].

(** ** Further notions and runs *)

(** The value the [.env] file gives a variable: that of the last binding of
    the name, if there is one and it has a value. *)
Definition dotenv_value (bindings : list (str * option str)) (name : str)
  : option str :=
  fold_left (fun found kv => if str_eqb name (fst kv) then snd kv else found)
    bindings None.

(** Every code point is below 128. *)
Definition ascii_only (s : str) : bool := forallb (fun c => c <? 128) s.

(** No float occurs in the value. *)
Fixpoint float_free (v : value) : bool :=
  match v with
  | VFloat _ => false
  | VList items => forallb float_free items
  | VDict items => forallb (fun kv => float_free (snd kv)) items
  | _ => true
  end.

(** The request URL of a call for [loc] in [w]. *)
Definition url_for {interp : Interp} (loc : str) (w : World) : str :=
  request_url (VStr loc) (credential w).

(** A process without the key in its environment, whose [.env] file gives it. *)
Definition world_with_dotenv (answer : get_result) : World :=
  {| environ := [(lit "HOME", lit "/root")];
     dotenv := [(lit "WEATHER_API", Some (lit "f1le"));
                (lit "HOME", Some (lit "/tmp"))];
     network := fun _ => answer;
     log := [] |}.

(** The connection is refused. *)
Definition world_refused : World :=
  world_answering (Fails (Exn ConnectionError (lit "Connection refused"))).

(** The service answers with a JSON array. *)
Definition world_array : World :=
  world_answering
    (Responds (response_of 200 (lit "OK")
                 (@json_text example_interp None (VList [VInt 1; VInt 2])))).

(** The decimal numeral of [n] zeros. *)
Fixpoint zeros (n : nat) : Decimal.uint :=
  match n with
  | O => Nil
  | S n => D0 (zeros n)
  end.

(** The int 10 ** 4300, of 4301 digits, given by its numeral. *)
Definition ten_to_4300 : Z := Z.of_int (Pos (D1 (zeros 4300))).

(** A mapping that holds it, and the JSON text of the mapping. *)
Definition long_int_mapping : value := VDict [(lit "n", VInt ten_to_4300)].



(** [leaf] inside [n] lists of one item. *)
Fixpoint nested_lists (n : nat) (leaf : value) : value :=
  match n with
  | O => leaf
  | S n => VList [nested_lists n leaf]
  end.



(** A mapping that holds None inside 992 lists. *)
Definition deep_mapping : value :=
  VDict [(lit "k", nested_lists 992 VNone)].

(** A mapping with a text of two code points, a high surrogate and a low
    one, and the mapping with the one character that the two spell in
    UTF-16. *)
Definition surrogate_mapping : value := VDict [(lit "k", VStr [55357; 56832])].

Definition astral_mapping : value := VDict [(lit "k", VStr [128512])].

(** A summary with a float. *)
Definition summary_float : value :=
  VDict [ (lit "name", VStr (lit "Athens"));
          (lit "temperature", VFloat (lit "20.5"));
          (lit "feels_like", VFloat (lit "-1.5e-07")) ].

(** A [.env] file that binds the key twice, and one whose last binding of
    the key has no value. *)
Definition world_rebound (answer : get_result) : World :=
  {| environ := [(lit "HOME", lit "/root")];
     dotenv := [(lit "WEATHER_API", Some (lit "f1rst"));
                (lit "DEBUG", Some (lit "1"));
                (lit "WEATHER_API", Some (lit "l4st"))];
     network := fun _ => answer;
     log := [] |}.

(** A summary with a character beyond ASCII. *)
Definition summary_unicode : value :=
  VDict [ (lit "name", VStr [913; 952; 942; 957; 945]);
          (lit "temperature", VInt (-3)) ].

(** * Properties *)

(** ** Text and dicts *)

Lemma str_eqb_eq (a b : str) : str_eqb a b = true <-> a = b.
Proof.
  revert b; induction a as [|x a IH]; intros [|y b]; simpl;
    try (split; [discriminate | discriminate]); try tauto.
  rewrite andb_true_iff, N.eqb_eq, IH.
  split; [intros [-> ->]; reflexivity | intros H; inversion H; auto].
Qed.

Lemma str_eqb_refl (a : str) : str_eqb a a = true.
Proof. apply str_eqb_eq; reflexivity. Qed.

Lemma str_eqb_neq (a b : str) : str_eqb a b = false <-> a <> b.
Proof.
  rewrite <- str_eqb_eq. destruct (str_eqb a b); split; congruence.
Qed.

(** ** The extractor *)

Section Extractor.
Context {interp : Interp}.

Lemma getitem2_source_field (data : value) (k1 k2 : str) (x : value) :
  source_field data k1 k2 = Some x -> getitem2 data k1 k2 = Return x.
Proof.
  unfold source_field, getitem2, getitem, bind_o.
  destruct data; try discriminate.
  destruct (dict_get items k1) as [[]|]; try discriminate.
  intros ->; reflexivity.
Qed.

(** The result is a function of what the five subscripts evaluate to. *)
Lemma extract_weather_info_subscripts (d1 d2 : value) :
  (forall k1 k2, In (k1, k2) source_fields ->
                 getitem2 d1 k1 k2 = getitem2 d2 k1 k2) ->
  extract_weather_info d1 = extract_weather_info d2.
Proof.
  intros H. unfold extract_weather_info.
  rewrite !(H _ _) by (simpl; tauto).
  reflexivity.
Qed.

(** C5.  The extractor is a projection: on a raw response whose five source
    fields hold [name], [region], [local_time], [temperature] and
    [feels_like], it returns exactly the five-key summary with these values,
    unchanged, under the keys name, region, local_time, temperature and
    feels_like.  It is a function of its argument alone: it neither reads nor
    changes the process. *)
Theorem extract_weather_info_projection
  (data name region local_time temperature feels_like : value) :
  source_field data (lit "location") (lit "name") = Some name ->
  source_field data (lit "location") (lit "region") = Some region ->
  source_field data (lit "location") (lit "localtime") = Some local_time ->
  source_field data (lit "current") (lit "temperature") = Some temperature ->
  source_field data (lit "current") (lit "feelslike") = Some feels_like ->
  extract_weather_info data =
    Return (VDict [ (lit "name", name);
                    (lit "region", region);
                    (lit "local_time", local_time);
                    (lit "temperature", temperature);
                    (lit "feels_like", feels_like) ]).
Proof.
  intros H1 H2 H3 H4 H5. unfold extract_weather_info.
  rewrite (getitem2_source_field _ _ _ _ H1), (getitem2_source_field _ _ _ _ H2),
    (getitem2_source_field _ _ _ _ H3), (getitem2_source_field _ _ _ _ H4),
    (getitem2_source_field _ _ _ _ H5).
  reflexivity.
Qed.

(** C10.  The result depends on the five source fields only: two raw
    responses that both have the five fields, with the same values, give the
    same result, whatever else they hold. *)
Theorem extract_weather_info_ignores_other_keys (d1 d2 : value) :
  (forall k1 k2, In (k1, k2) source_fields ->
                 source_field d1 k1 k2 <> None /\
                 source_field d1 k1 k2 = source_field d2 k1 k2) ->
  extract_weather_info d1 = extract_weather_info d2.
Proof.
  intros H. apply extract_weather_info_subscripts.
  intros k1 k2 Hin. destruct (H k1 k2 Hin) as [Hsome Heq].
  destruct (source_field d1 k1 k2) as [x|] eqn:E1; [|congruence].
  rewrite (getitem2_source_field _ _ _ _ E1).
  symmetry in Heq. rewrite (getitem2_source_field _ _ _ _ Heq).
  reflexivity.
Qed.

End Extractor.

Section ExtractorFailure.
Context {interp : Interp}.

Lemma subscript_error_class (e : exn) :
  subscript_error e -> exn_class_of e = KeyError \/ exn_class_of e = TypeError.
Proof. intros [k _|v _]; simpl; auto. Qed.

(** The eight ways the extractor fails, each at the [n]-th source field, the
    fields before it being there. *)
Ltac fails_at n :=
  exists (firstn n source_fields);
  match eval cbv beta iota fix delta [nth source_fields] in
        (nth n source_fields ([], [])) with
  | (?k1, ?k2) => exists k1, k2
  end;
  exists (skipn (S n) source_fields);
  split; [reflexivity|];
  split;
    [ intros f Hf; cbn [firstn source_fields In] in Hf;
      repeat (destruct Hf as [<-|Hf];
              [cbn [fst snd source_field];
               repeat match goal with
                      | E : dict_get _ _ = _ |- _ => rewrite E
                      end; discriminate|]);
      destruct Hf |];
  split;
    [ cbn [source_field];
      repeat match goal with
             | E : dict_get _ _ = _ |- _ => rewrite E
             end; reflexivity |];
  split; [reflexivity|];
  split; [discriminate|];
  split;
    [ repeat match goal with
             | E : dict_get _ _ = _ |- _ => rewrite E
             end; try split; reflexivity |];
  split;
    [ unfold mapping_if_present;
      repeat match goal with
             | E : dict_get _ _ = _ |- _ => rewrite E
             end; intros; try tauto; reflexivity
    | intros Hd; subst; try discriminate; reflexivity ].

(** C2, as amended.  On every input mapping that lacks one of the five source
    fields the extractor raises and returns no value, none being substituted
    for the absent one.  What it raises is the error of the first field, in
    the order name, region, localtime, temperature, feelslike, that is
    absent: the KeyError of the outer key (location or current) when the
    input has no such key; the KeyError of the field's own key when the
    mapping under the outer key has no such key; the TypeError of
    subscripting when the value under the outer key is not a mapping.  So it
    is a KeyError, and of a key that is missing where it is looked up,
    whenever the values under location and current, if present, are
    mappings, and the KeyError of the key location on the empty mapping. *)
Theorem extract_weather_info_missing_field (d : list (str * value)) :
  (exists k1 k2, In (k1, k2) source_fields /\
                 source_field (VDict d) k1 k2 = None) ->
  exists e before k1 k2 after,
    source_fields = before ++ (k1, k2) :: after /\
    (forall f, In f before ->
               source_field (VDict d) (fst f) (snd f) <> None) /\
    source_field (VDict d) k1 k2 = None /\
    extract_weather_info (VDict d) = Raise e /\
    (forall v, extract_weather_info (VDict d) <> Return v) /\
    match dict_get d k1 with
    | None => e = Exn KeyError (str_repr k1)
    | Some (VDict inner) =>
        dict_get inner k2 = None /\ e = Exn KeyError (str_repr k2)
    | Some v => e = Exn TypeError (subscript_error_text v)
    end /\
    (mapping_if_present d (lit "location") ->
     mapping_if_present d (lit "current") -> exn_class_of e = KeyError) /\
    (d = [] -> e = Exn KeyError (str_repr (lit "location"))).
Proof.
  intros (k1 & k2 & Hin & Habs).
  unfold extract_weather_info, getitem2, getitem, bind_o.
  destruct (dict_get d (lit "location")) as [vl|] eqn:El;
    [|eexists; fails_at 0%nat].
  destruct vl as [| | | | |?|loc]; try (eexists; fails_at 0%nat).
  destruct (dict_get loc (lit "name")) eqn:E1; [|eexists; fails_at 0%nat].
  destruct (dict_get loc (lit "region")) eqn:E2; [|eexists; fails_at 1%nat].
  destruct (dict_get loc (lit "localtime")) eqn:E3; [|eexists; fails_at 2%nat].
  destruct (dict_get d (lit "current")) as [vc|] eqn:Ec;
    [|eexists; fails_at 3%nat].
  destruct vc as [| | | | |?|cur]; try (eexists; fails_at 3%nat).
  destruct (dict_get cur (lit "temperature")) eqn:E4;
    [|eexists; fails_at 3%nat].
  destruct (dict_get cur (lit "feelslike")) eqn:E5; [|eexists; fails_at 4%nat].
  exfalso. unfold source_field in Habs. simpl in Hin.
  repeat (destruct Hin as [Hin|Hin];
          [injection Hin as <- <-; rewrite ?El, ?Ec in Habs; congruence|]).
  exact Hin.
Qed.

End ExtractorFailure.

(** Concrete runs of the extractor. *)

Lemma extract_weather_info_projection_witness :
  @extract_weather_info example_interp athens_2024 =
    Return (VDict [ (lit "name", VStr (lit "Athens"));
                    (lit "region", VStr (lit "Attica"));
                    (lit "local_time", VStr (lit "2024-01-01 10:00"));
                    (lit "temperature", VInt 15);
                    (lit "feels_like", VInt 13) ]).
Proof.
  apply (@extract_weather_info_projection example_interp athens_2024);
    reflexivity.
Defined.

Lemma extract_weather_info_ignores_other_keys_witness :
  @extract_weather_info example_interp athens_2024 =
  @extract_weather_info example_interp athens_2024_verbose.
Proof.
  apply (@extract_weather_info_ignores_other_keys example_interp).
  intros k1 k2 Hin. simpl in Hin.
  repeat (destruct Hin as [Hin|Hin];
          [injection Hin as <- <-; split; [discriminate | reflexivity]|]).
  destruct Hin.
Defined.

Lemma extract_weather_info_missing_field_witness :
  exists e,
    @extract_weather_info example_interp (VDict []) = Raise e /\
    e = Exn KeyError (lit "'location'").
Proof.
  destruct (@extract_weather_info_missing_field example_interp [])
    as (e & before & k1 & k2 & after & _ & _ & _ & He & _ & _ & _ & Hempty).
  - exists (lit "location"), (lit "name"). split; [simpl; tauto | reflexivity].
  - exists e. split; [exact He | exact (Hempty eq_refl)].
Defined.

(** C2, as stated, fails: with a text under location, the field
    location.name is absent and the extractor raises a TypeError, which is
    not a key-lookup error. *)
Lemma extract_weather_info_missing_field_counterexample :
  source_field flat_location (lit "location") (lit "name") = None /\
  exists e,
    @extract_weather_info example_interp flat_location = Raise e /\
    exn_class_of e = TypeError /\
    exn_class_of e <> KeyError.
Proof.
  split; [reflexivity|].
  eexists. split; [reflexivity|]. split; [reflexivity | discriminate].
Qed.

(** ** The process log *)

Lemma printed_record (ev : event) (w : World) :
  printed (record ev w) =
  printed w ++ match ev with Stdout t => [t] | _ => [] end.
Proof.
  unfold printed, record; simpl. rewrite flat_map_app; simpl.
  rewrite app_nil_r. reflexivity.
Qed.

Lemma errors_written_record (ev : event) (w : World) :
  errors_written (record ev w) =
  errors_written w ++ match ev with Stderr t => [t] | _ => [] end.
Proof.
  unfold errors_written, record; simpl. rewrite flat_map_app; simpl.
  rewrite app_nil_r. reflexivity.
Qed.

Lemma requested_record (ev : event) (w : World) :
  requested (record ev w) =
  requested w ++ match ev with HttpGet u => [u] | _ => [] end.
Proof.
  unfold requested, record; simpl. rewrite flat_map_app; simpl.
  rewrite app_nil_r. reflexivity.
Qed.

(** ** The credential *)

Lemma env_get_add_binding (env : list (str * str)) (kv : str * option str)
      (name : str) :
  env_get (add_binding env kv) name =
  match env_get env name with
  | Some v => Some v
  | None =>
      match snd kv with
      | Some v => if str_eqb name (fst kv) then Some v else None
      | None => None
      end
  end.
Proof.
  unfold add_binding. destruct kv as [k [v|]]; simpl.
  - destruct (env_get env k) eqn:Ek.
    + destruct (env_get env name) eqn:En; [reflexivity|].
      destruct (str_eqb name k) eqn:E; [|reflexivity].
      apply str_eqb_eq in E. congruence.
    + clear Ek. induction env as [|[k' v'] env IH]; simpl.
      * reflexivity.
      * destruct (str_eqb name k'); [reflexivity | exact IH].
  - destruct (env_get env k); destruct (env_get env name); reflexivity.
Qed.

(** The dict of the bindings. *)

Lemma binding_get_set (d : list (str * option str)) (k name : str)
      (v : option str) :
  binding_get (binding_set d k v) name =
  if str_eqb name k then Some v else binding_get d name.
Proof.
  induction d as [|[k' v'] d IH]; cbn [binding_set binding_get].
  - reflexivity.
  - destruct (str_eqb k k') eqn:Ek; cbn [binding_get].
    + apply str_eqb_eq in Ek. subst k'.
      destruct (str_eqb name k); reflexivity.
    + rewrite IH. destruct (str_eqb name k') eqn:En; [|reflexivity].
      apply str_eqb_eq in En. subst k'.
      destruct (str_eqb name k) eqn:E; [|reflexivity].
      apply str_eqb_eq in E. subst k. rewrite str_eqb_refl in Ek. discriminate.
Qed.

Lemma binding_set_keys (d : list (str * option str)) (k : str)
      (v : option str) (k' : str) :
  In k' (List.map fst (binding_set d k v)) <->
  k' = k \/ In k' (List.map fst d).
Proof.
  induction d as [|[k0 v0] d IH]; cbn [binding_set List.map fst In].
  - intuition.
  - destruct (str_eqb k k0) eqn:Ek; cbn [List.map fst In].
    + apply str_eqb_eq in Ek. subst k0. intuition.
    + rewrite IH. intuition.
Qed.

Lemma binding_set_NoDup (d : list (str * option str)) (k : str)
      (v : option str) :
  NoDup (List.map fst d) -> NoDup (List.map fst (binding_set d k v)).
Proof.
  induction d as [|[k0 v0] d IH]; cbn [binding_set List.map fst]; intros Hd.
  - constructor; [intros [] | constructor].
  - inversion Hd as [|? ? Hn Hd']; subst.
    destruct (str_eqb k k0) eqn:Ek; cbn [List.map fst].
    + constructor; assumption.
    + constructor; [|exact (IH Hd')].
      rewrite binding_set_keys. intros [->|Hin]; [|exact (Hn Hin)].
      rewrite str_eqb_refl in Ek. discriminate.
Qed.

Lemma dotenv_dict_NoDup (bindings : list (str * option str)) :
  NoDup (List.map fst (dotenv_dict bindings)).
Proof.
  unfold dotenv_dict.
  assert (H : forall acc, NoDup (List.map fst acc) ->
            NoDup (List.map fst
                     (fold_left (fun d kv => binding_set d (fst kv) (snd kv))
                        bindings acc))).
  { induction bindings as [|kv bindings IH]; intros acc Hacc; cbn [fold_left].
    - exact Hacc.
    - apply IH. apply binding_set_NoDup. exact Hacc. }
  apply H. constructor.
Qed.

(** The dict gives a name what its last binding gives it. *)
Lemma binding_get_dotenv_dict (bindings : list (str * option str))
      (name : str) :
  match binding_get (dotenv_dict bindings) name with
  | Some o => o
  | None => None
  end = dotenv_value bindings name.
Proof.
  unfold dotenv_dict, dotenv_value.
  assert (H : forall acc found,
            match binding_get acc name with Some o => o | None => None end
            = found ->
            match binding_get
                    (fold_left (fun d kv => binding_set d (fst kv) (snd kv))
                       bindings acc) name with
            | Some o => o
            | None => None
            end
            = fold_left
                (fun found kv => if str_eqb name (fst kv) then snd kv else found)
                bindings found).
  { induction bindings as [|[k o] bindings IH]; intros acc found Hacc;
      cbn [fold_left fst snd].
    - exact Hacc.
    - apply IH. rewrite binding_get_set.
      destruct (str_eqb name k); [reflexivity | exact Hacc]. }
  apply H. reflexivity.
Qed.

Lemma binding_get_absent (d : list (str * option str)) (k : str) :
  ~ In k (List.map fst d) -> binding_get d k = None.
Proof.
  induction d as [|[k' v'] d IH]; cbn [List.map fst In binding_get]; intros H.
  - reflexivity.
  - destruct (str_eqb k k') eqn:E.
    + apply str_eqb_eq in E. subst k'. exfalso. apply H. left; reflexivity.
    + apply IH. intros Hin. apply H. right; exact Hin.
Qed.

Lemma binding_get_in (d : list (str * option str)) (k : str) (o : option str) :
  NoDup (List.map fst d) -> In (k, o) d -> binding_get d k = Some o.
Proof.
  induction d as [|[k' v'] d IH]; cbn [List.map fst In binding_get];
    intros Hd Hin; [destruct Hin|].
  inversion Hd as [|? ? Hn Hd']; subst.
  destruct Hin as [[= -> ->]|Hin].
  - rewrite str_eqb_refl. reflexivity.
  - destruct (str_eqb k k') eqn:E; [|exact (IH Hd' Hin)].
    apply str_eqb_eq in E. subst k'. exfalso. apply Hn.
    apply in_map_iff. exists (k, o). split; [reflexivity | exact Hin].
Qed.

(** A value the file gives a name is the value of one of its bindings. *)
Lemma dotenv_value_binding (bindings : list (str * option str))
      (name v : str) :
  dotenv_value bindings name = Some v -> In (name, Some v) bindings.
Proof.
  unfold dotenv_value.
  assert (H : forall found,
            fold_left
              (fun found kv => if str_eqb name (fst kv) then snd kv else found)
              bindings found = Some v ->
            found = Some v \/ In (name, Some v) bindings).
  { induction bindings as [|[k o] bindings IH]; intros found;
      cbn [fold_left fst snd In].
    - auto.
    - intros Hf. destruct (IH _ Hf) as [Hk|Hin]; [|auto].
      destruct (str_eqb name k) eqn:E; [|auto].
      apply str_eqb_eq in E. subst. auto. }
  intros Hf. destruct (H None Hf) as [Hk|Hin]; [discriminate | exact Hin].
Qed.

(** The environment after the items of a dict have been added. *)
Lemma env_get_add_dict (d : list (str * option str)) (env : list (str * str))
      (name : str) :
  NoDup (List.map fst d) ->
  env_get (fold_left add_binding d env) name =
  match env_get env name with
  | Some v => Some v
  | None => match binding_get d name with Some o => o | None => None end
  end.
Proof.
  revert env. induction d as [|[k o] d IH]; intros env Hd.
  - cbn [fold_left binding_get]. destruct (env_get env name); reflexivity.
  - inversion Hd as [|? ? Hn Hd']; subst.
    cbn [fold_left binding_get]. rewrite (IH _ Hd'), env_get_add_binding.
    cbn [fst snd].
    destruct (env_get env name); [reflexivity|].
    destruct (str_eqb name k) eqn:E.
    + apply str_eqb_eq in E. subst k.
      destruct o as [v|]; [reflexivity|].
      rewrite (binding_get_absent _ _ Hn). reflexivity.
    + destruct o; reflexivity.
Qed.

(** The environment after [load_dotenv]: a variable that was set keeps its
    value, another one gets the value the file gives it, if any. *)
Lemma env_get_load (bindings : list (str * option str))
      (env : list (str * str)) (name : str) :
  env_get (fold_left add_binding (dotenv_dict bindings) env) name =
  match env_get env name with
  | Some v => Some v
  | None => dotenv_value bindings name
  end.
Proof.
  rewrite (env_get_add_dict _ _ _ (dotenv_dict_NoDup bindings)).
  rewrite binding_get_dotenv_dict. reflexivity.
Qed.

Lemma env_get_load_unset (bindings : list (str * option str))
      (env : list (str * str)) (name : str) :
  env_get env name = None ->
  (forall v, ~ In (name, Some v) bindings) ->
  env_get (fold_left add_binding (dotenv_dict bindings) env) name = None.
Proof.
  intros He Hb. rewrite env_get_load, He.
  destruct (dotenv_value bindings name) as [v|] eqn:E; [|reflexivity].
  exfalso. exact (Hb v (dotenv_value_binding _ _ _ E)).
Qed.

Lemma load_environment_returns (w : World) :
  exists w1,
    load_environment w = (Return (credential w), w1) /\
    network w1 = network w /\
    log w1 = log w ++ [LoadDotenv; Getenv (lit "WEATHER_API")].
Proof.
  unfold credential, load_environment, bind, load_dotenv, os_getenv, ret.
  simpl. eexists. split; [reflexivity|]. split; [reflexivity|].
  unfold record; simpl. rewrite <- app_assoc. reflexivity.
Qed.

Lemma credential_unset (w : World) :
  unset w (lit "WEATHER_API") -> credential w = VNone.
Proof.
  intros [He Hb].
  unfold credential, load_environment, bind, load_dotenv, os_getenv, ret.
  simpl. rewrite (env_get_load_unset _ _ _ He Hb). reflexivity.
Qed.

(** ** The fetch *)

(** Whatever stops the decoder is caught by the second handler. *)
Lemma decode_error_caught (why : decode_error) :
  is_HTTPError (decode_error_class why) = false /\
  is_Exception (decode_error_class why) = true.
Proof. destruct why; split; reflexivity. Qed.

Section Fetch.
Context {interp : Interp}.

(** The text the handlers print for a caught exception. *)
Lemma fetch_of_attempt (URL : str) (w : World) :
  fetch URL w =
  match attempt URL w with
  | (Return v, w') => (Return v, w')
  | (Raise e, w') =>
      if is_HTTPError (exn_class_of e) then
        (Return (VDict []),
         record (Stdout (lit "HTTP error occurred: " ++ exn_text e)) w')
      else if is_Exception (exn_class_of e) then
        (Return (VDict []),
         record (Stdout (lit "Other error occurred: " ++ exn_text e)) w')
      else (Raise e, w')
  end.
Proof.
  unfold fetch, try_except.
  destruct (attempt URL w) as [[v|e] w']; [reflexivity|].
  destruct (is_HTTPError (exn_class_of e)); [reflexivity|].
  destruct (is_Exception (exn_class_of e)); reflexivity.
Qed.

Lemma attempt_log (URL : str) (w : World) :
  snd (attempt URL w) = record (HttpGet URL) w.
Proof.
  unfold attempt, bind, requests_get, raise_for_status, response_json.
  destruct (network w URL) as [r|e]; [|reflexivity].
  destruct ((400 <=? status_code r) && (status_code r <? 500))%Z; [reflexivity|].
  destruct ((500 <=? status_code r) && (status_code r <? 600))%Z; [reflexivity|].
  unfold ret. destruct (json_loads (text r)); reflexivity.
Qed.

(** What the body of the [try] raises comes from the request, from the
    status or from the decoding. *)
Lemma attempt_raises (URL : str) (w : World) (e : exn) :
  fst (attempt URL w) = Raise e ->
  network w URL = Fails e \/
  exists r, network w URL = Responds r /\
            is_Exception (exn_class_of e) = true.
Proof.
  unfold attempt, bind, requests_get, raise_for_status, response_json.
  destruct (network w URL) as [r|e0]; simpl.
  - intros H; right; exists r; split; [reflexivity|]. revert H.
    destruct ((400 <=? status_code r) && (status_code r <? 500))%Z;
      [unfold raise; simpl; intros [= <-]; reflexivity|].
    destruct ((500 <=? status_code r) && (status_code r <? 600))%Z;
      [unfold raise; simpl; intros [= <-]; reflexivity|].
    unfold ret. destruct (json_loads (text r));
      unfold raise, ret; simpl; [discriminate|].
    intros [= <-]. simpl. destruct (json_error_kind (text r)); reflexivity.
  - intros [= ->]; left; reflexivity.
Qed.

(** A fetch that fails in a way the handlers catch raises, in the body of the
    [try], an exception that derives from [Exception]. *)
Lemma attempt_of_fetch_fails (URL : str) (w : World) :
  fetch_fails w URL = true ->
  exists e, attempt URL w = (Raise e, record (HttpGet URL) w) /\
            is_Exception (exn_class_of e) = true.
Proof.
  unfold fetch_fails. intros H.
  rewrite (surjective_pairing (attempt URL w)), attempt_log.
  unfold attempt, bind, requests_get, raise_for_status, response_json.
  destruct (network w URL) as [r|e]; simpl.
  - destruct ((400 <=? status_code r) && (status_code r <? 500))%Z eqn:E4;
      [eexists; split; reflexivity|].
    destruct ((500 <=? status_code r) && (status_code r <? 600))%Z eqn:E5;
      [eexists; split; reflexivity|].
    unfold ret. destruct (json_loads (text r));
      [|eexists; split; [reflexivity | apply decode_error_caught]].
    exfalso. rewrite orb_false_r in H.
    rewrite !andb_true_iff, !andb_false_iff in *.
    rewrite ?Z.leb_le, ?Z.ltb_lt, ?Z.leb_gt, ?Z.ltb_ge in *. lia.
  - exists e. split; [reflexivity | exact H].
Qed.

(** A response whose status is not 400 to 599 and whose body decodes is
    returned as decoded, and nothing is printed. *)
Lemma fetch_decodes (URL : str) (w : World) (r : Response) (v : value) :
  network w URL = Responds r ->
  ((400 <=? status_code r) && (status_code r <? 600))%Z = false ->
  json_loads (text r) = Some v ->
  fetch URL w = (Return v, record (HttpGet URL) w).
Proof.
  intros Hn Hs Hj. rewrite fetch_of_attempt.
  unfold attempt, bind, requests_get, raise_for_status, response_json.
  rewrite Hn, Hj.
  assert (E4 : ((400 <=? status_code r) && (status_code r <? 500))%Z = false).
  { rewrite !andb_false_iff in *.
    rewrite ?Z.leb_gt, ?Z.ltb_ge in *. lia. }
  assert (E5 : ((500 <=? status_code r) && (status_code r <? 600))%Z = false).
  { rewrite !andb_false_iff in *.
    rewrite ?Z.leb_gt, ?Z.ltb_ge in *. lia. }
  rewrite E4, E5. reflexivity.
Qed.

Lemma search_weather_str (loc : str) (w : World) :
  exists w1,
    load_environment w = (Return (credential w), w1) /\
    network w1 = network w /\
    log w1 = log w ++ [LoadDotenv; Getenv (lit "WEATHER_API")] /\
    search_weather (VStr loc) w =
      fetch (request_url (VStr loc) (credential w)) w1.
Proof.
  destruct (load_environment_returns w) as (w1 & Hl & Hn & Hlog).
  exists w1. repeat split; auto.
  unfold search_weather. cbn [isinstance_str negb]. unfold bind at 1.
  rewrite Hl. reflexivity.
Qed.

End Fetch.

Section SearchWeather.
Context {interp : Interp}.

(** C3.  An argument that is not a str makes [search_weather] raise the
    TypeError of line 40 at once: the process is left as it was, so the
    credential has not been read and no request has been made.  A str passes
    the check: the credential is read, the fetch goes ahead, and whatever
    [search_weather] may still raise is not a TypeError. *)
Theorem search_weather_type_check (location : value) (w : World) :
  (isinstance_str location = false ->
   search_weather location w =
     (Raise (Exn TypeError (lit "Input must be a string.")), w)) /\
  (isinstance_str location = true ->
   exists w1,
     load_environment w = (Return (credential w), w1) /\
     search_weather location w =
       fetch (request_url location (credential w)) w1 /\
     forall e, fst (search_weather location w) = Raise e ->
               exn_class_of e <> TypeError).
Proof.
  split; intros Hs.
  - unfold search_weather. rewrite Hs. reflexivity.
  - destruct location; try discriminate.
    destruct (search_weather_str s w) as (w1 & Hl & _ & _ & Hsw).
    exists w1. repeat split; auto.
    intros e. rewrite Hsw, fetch_of_attempt.
    destruct (attempt _ w1) as [[v|e'] w']; [discriminate|].
    destruct (is_HTTPError (exn_class_of e')); [discriminate|].
    destruct (is_Exception (exn_class_of e')) eqn:E; [discriminate|].
    simpl. intros [= <-] Hc. rewrite Hc in E. discriminate.
Qed.

(** C9.  With WEATHER_API unset, [load_environment] returns None and
    [search_weather] goes on: the request URL carries the text None as the
    access key, the GET for exactly this URL is issued, and nothing is raised
    but what the request itself raises past the two handlers. *)
Theorem search_weather_without_key (loc : str) (w : World) :
  unset w (lit "WEATHER_API") ->
  let URL := lit "https://api.weatherstack.com/current?query=" ++ loc
             ++ lit "&access_key=None" in
  exists w1,
    load_environment w = (Return VNone, w1) /\
    search_weather (VStr loc) w = fetch URL w1 /\
    requested (snd (search_weather (VStr loc) w)) = requested w ++ [URL] /\
    forall e, fst (search_weather (VStr loc) w) = Raise e ->
              network w URL = Fails e /\
              is_Exception (exn_class_of e) = false.
Proof.
  intros Hu URL.
  destruct (search_weather_str loc w) as (w1 & Hl & Hn & Hlog & Hsw).
  rewrite (credential_unset w Hu) in Hl, Hsw.
  change (request_url (VStr loc) VNone) with URL in Hsw.
  exists w1. split; [exact Hl|]. split; [exact Hsw|].
  rewrite Hsw, fetch_of_attempt.
  pose proof (attempt_log URL w1) as Hal.
  pose proof (attempt_raises URL w1) as Har.
  assert (Hreq : requested (record (HttpGet URL) w1) = requested w ++ [URL]).
  { rewrite requested_record. f_equal.
    unfold requested. rewrite Hlog, flat_map_app. simpl.
    apply app_nil_r. }
  destruct (attempt URL w1) as [[v|e'] w']; simpl in Hal; subst w'.
  - split; [exact Hreq|]. discriminate.
  - destruct (is_HTTPError (exn_class_of e')) eqn:Eh.
    + simpl. rewrite requested_record, Hreq. simpl.
      split; [apply app_nil_r | discriminate].
    + destruct (is_Exception (exn_class_of e')) eqn:Ee.
      * simpl. rewrite requested_record, Hreq. simpl.
        split; [apply app_nil_r | discriminate].
      * simpl. split; [exact Hreq|].
        intros e [= <-]. split; [|exact Ee].
        destruct (Har e' eq_refl) as [Hf|(r & _ & Hc)].
        -- rewrite <- Hn. exact Hf.
        -- rewrite Hc in Ee. discriminate.
Qed.

(** C8, as amended.  When the fetch fails with an HTTP error or another
    exception that derives from [Exception], the diagnostic text is written
    by [print], that is to the standard output stream; nothing is written to
    the standard error stream. *)
Theorem search_weather_diagnostic_on_stdout (loc : str) (w : World) :
  fetch_fails w (request_url (VStr loc) (credential w)) = true ->
  exists e,
    fst (attempt (request_url (VStr loc) (credential w))
           (snd (load_environment w))) = Raise e /\
    printed (snd (search_weather (VStr loc) w)) = printed w ++ [diagnostic e] /\
    errors_written (snd (search_weather (VStr loc) w)) = errors_written w.
Proof.
  intros Hf.
  destruct (search_weather_str loc w) as (w1 & Hl & Hn & Hlog & Hsw).
  unfold fetch_fails in Hf. rewrite <- Hn in Hf.
  destruct (attempt_of_fetch_fails _ w1 Hf) as (e & Ha & He).
  exists e. rewrite Hl; simpl. rewrite Ha; simpl.
  split; [reflexivity|].
  rewrite Hsw, fetch_of_attempt, Ha.
  assert (Hp : printed (record (HttpGet (request_url (VStr loc) (credential w))) w1)
               = printed w).
  { rewrite printed_record, app_nil_r. unfold printed.
    rewrite Hlog, flat_map_app. simpl. apply app_nil_r. }
  assert (Hq : errors_written
                 (record (HttpGet (request_url (VStr loc) (credential w))) w1)
               = errors_written w).
  { rewrite errors_written_record, app_nil_r. unfold errors_written.
    rewrite Hlog, flat_map_app. simpl. apply app_nil_r. }
  unfold diagnostic.
  destruct (is_HTTPError (exn_class_of e)); [|rewrite He]; simpl;
    rewrite printed_record, errors_written_record, Hp, Hq, app_nil_r;
    split; reflexivity.
Qed.

(** C1, as amended.  When the request raises an exception that derives from
    [Exception], or the response has a status of 400 to 599, or its body does
    not decode, [search_weather] returns the empty mapping and does not
    raise.  The caller gets the very value that a successful fetch of an
    empty JSON object gives. *)
Theorem search_weather_failed_fetch (loc : str) (w : World) :
  fetch_fails w (request_url (VStr loc) (credential w)) = true ->
  fst (search_weather (VStr loc) w) = Return (VDict []) /\
  forall w0 r,
    network w0 (request_url (VStr loc) (credential w0)) = Responds r ->
    (200 <= status_code r < 300)%Z ->
    text r = lit "{}" ->
    fst (search_weather (VStr loc) w0) = Return (VDict []).
Proof.
  intros Hf. split.
  - destruct (search_weather_str loc w) as (w1 & Hl & Hn & Hlog & Hsw).
    unfold fetch_fails in Hf. rewrite <- Hn in Hf.
    destruct (attempt_of_fetch_fails _ w1 Hf) as (e & Ha & He).
    rewrite Hsw, fetch_of_attempt, Ha.
    destruct (is_HTTPError (exn_class_of e)); [|rewrite He]; reflexivity.
  - intros w0 r Hr Hs Ht.
    destruct (search_weather_str loc w0) as (w1 & Hl & Hn & Hlog & Hsw).
    rewrite Hsw. rewrite <- Hn in Hr.
    rewrite (fetch_decodes _ w1 r (VDict []) Hr).
    + reflexivity.
    + rewrite andb_false_iff, Z.leb_gt, Z.ltb_ge. lia.
    + rewrite Ht. reflexivity.
Qed.

End SearchWeather.

(** Concrete runs of [search_weather]. *)

Lemma search_weather_type_check_witness :
  @search_weather example_interp (VInt 7) world_404 =
    (Raise (Exn TypeError (lit "Input must be a string.")), world_404) /\
  (forall e,
     fst (@search_weather example_interp (VStr (lit "Athens")) world_404)
       = Raise e -> exn_class_of e <> TypeError).
Proof.
  split.
  - exact (proj1 (@search_weather_type_check example_interp (VInt 7) world_404)
             eq_refl).
  - destruct (proj2 (@search_weather_type_check example_interp
                       (VStr (lit "Athens")) world_404) eq_refl)
      as (w1 & _ & _ & H).
    exact H.
Defined.

Lemma search_weather_without_key_witness :
  requested
    (snd (@search_weather example_interp (VStr (lit "Athens"))
            (world_without_key (Fails (Exn Timeout (lit "timed out"))))))
  = [ lit "https://api.weatherstack.com/current?query=Athens&access_key=None" ].
Proof.
  destruct (@search_weather_without_key example_interp (lit "Athens")
              (world_without_key (Fails (Exn Timeout (lit "timed out")))))
    as (w1 & _ & _ & H & _).
  - split; [reflexivity|].
    intros v [H|[H|[]]]; vm_compute in H; discriminate H.
  - exact H.
Defined.

Lemma search_weather_diagnostic_on_stdout_witness :
  printed (snd (@search_weather example_interp (VStr (lit "Athens")) world_404))
  = [ lit "HTTP error occurred: 404 Client Error: Not Found for url: https://api.weatherstack.com/current?query=Athens&access_key=k3y" ] /\
  errors_written
    (snd (@search_weather example_interp (VStr (lit "Athens")) world_404)) = [].
Proof.
  destruct (@search_weather_diagnostic_on_stdout example_interp (lit "Athens")
              world_404) as (e & He & Hp & Hq).
  - reflexivity.
  - injection He as <-. split; [exact Hp | exact Hq].
Defined.

Lemma search_weather_failed_fetch_witness :
  fst (@search_weather example_interp (VStr (lit "Athens")) world_404)
  = Return (VDict []).
Proof.
  apply (@search_weather_failed_fetch example_interp (lit "Athens") world_404).
  reflexivity.
Defined.

(** C1, as stated, fails twice.  A status of 300 is not a 2xx status, yet
    [raise_for_status] lets it through and the decoded body is returned, not
    the empty mapping.  A KeyboardInterrupt during the request is caught by
    neither handler and [search_weather] raises it. *)
Lemma search_weather_failed_fetch_counterexample :
  (network world_300
     (@request_url example_interp (VStr (lit "Athens")) (credential world_300))
   = Responds (response_of 300 (lit "Multiple Choices")
                 (@json_text example_interp None (VDict [(lit "a", VInt 1)]))) /\
   ~ (200 <= 300 < 300)%Z /\
   fst (@search_weather example_interp (VStr (lit "Athens")) world_300)
   = Return (VDict [(lit "a", VInt 1)]) /\
   VDict [(lit "a", VInt 1)] <> VDict []) /\
  (network world_interrupted
     (@request_url example_interp (VStr (lit "Athens"))
        (credential world_interrupted))
   = Fails (Exn KeyboardInterrupt []) /\
   fst (@search_weather example_interp (VStr (lit "Athens")) world_interrupted)
   = Raise (Exn KeyboardInterrupt [])).
Proof.
  repeat split; try reflexivity; try lia; discriminate.
Qed.

(** C8, as stated, fails: after a 404 the diagnostic is on the standard
    output stream and the standard error stream has received nothing. *)
Lemma search_weather_diagnostic_counterexample :
  errors_written
    (snd (@search_weather example_interp (VStr (lit "Athens")) world_404)) = [] /\
  printed (snd (@search_weather example_interp (VStr (lit "Athens")) world_404))
  = [ lit "HTTP error occurred: 404 Client Error: Not Found for url: https://api.weatherstack.com/current?query=Athens&access_key=k3y" ].
Proof.
  split; reflexivity.
Qed.

(** ** The json module *)

(** ** Numbers *)

Lemma uint_of_digits_uint_str (d : Decimal.uint) :
  uint_of_digits (uint_str d) = d.
Proof. induction d; simpl; [reflexivity | rewrite IHd; reflexivity ..]. Qed.

Lemma span_digits_uint_str (d : Decimal.uint) (rest : str) :
  match rest with c :: _ => is_digit c = false | [] => True end ->
  span_digits (uint_str d ++ rest) = (uint_str d, rest).
Proof.
  intros Hrest. induction d; simpl; try (rewrite IHd; reflexivity).
  destruct rest as [|c r]; [reflexivity|]. simpl. rewrite Hrest. reflexivity.
Qed.

Lemma to_uint_head (p : positive) :
  exists c r, uint_str (Pos.to_uint p) = c :: r /\
              is_digit c = true /\ (c =? 48) = false /\ (c =? 45) = false.
Proof.
  assert (Hn : Pos.to_uint p = nzhead (Pos.to_uint p)).
  { pose proof (DecimalPos.Unsigned.to_of (Pos.to_uint p)) as H.
    rewrite (DecimalPos.Unsigned.of_to p) in H. simpl in H.
    rewrite DecimalFacts.unorm_nzhead in H; [exact H|].
    intros Hnil. apply (DecimalPos.Unsigned.to_uint_nonzero p).
    rewrite H. apply DecimalFacts.unorm_0. exact Hnil. }
  pose proof (DecimalPos.Unsigned.to_uint_nonnil p) as Hnil.
  destruct (Pos.to_uint p) eqn:E; try congruence;
    try (simpl; eexists _, _; repeat split; reflexivity).
  exfalso. symmetry in Hn. exact (DecimalFacts.nzhead_nonzero _ _ Hn).
Qed.

Lemma number_end_digit (rest : str) :
  number_end rest = true ->
  match rest with c :: _ => is_digit c = false | [] => True end.
Proof.
  destruct rest as [|c r]; simpl; [trivial|].
  rewrite negb_true_iff, !orb_false_iff. tauto.
Qed.

Lemma match_frac_end (rest : str) :
  number_end rest = true -> match_frac rest = ([], rest).
Proof.
  destruct rest as [|c r]; simpl; [reflexivity|].
  rewrite negb_true_iff, !orb_false_iff. intros [[[_ H] _] _].
  rewrite H. reflexivity.
Qed.

Lemma match_exp_end (rest : str) :
  number_end rest = true -> match_exp rest = ([], rest).
Proof.
  destruct rest as [|c r]; simpl; [reflexivity|].
  rewrite negb_true_iff, !orb_false_iff. intros [[_ H1] H2].
  rewrite H1, H2. reflexivity.
Qed.

Lemma match_integer_to_uint (p : positive) (rest : str) :
  match rest with c :: _ => is_digit c = false | [] => True end ->
  match_integer (uint_str (Pos.to_uint p) ++ rest)
    = Some (uint_str (Pos.to_uint p), rest) /\
  match_integer (45 :: uint_str (Pos.to_uint p) ++ rest)
    = Some (45 :: uint_str (Pos.to_uint p), rest) /\
  int_of_text (uint_str (Pos.to_uint p)) = Zpos p /\
  int_of_text (45 :: uint_str (Pos.to_uint p)) = Zneg p.
Proof.
  intros Hd.
  pose proof (span_digits_uint_str (Pos.to_uint p) rest Hd) as Hs.
  pose proof (uint_of_digits_uint_str (Pos.to_uint p)) as Hu.
  pose proof (DecimalZ.of_to (Zpos p)) as Hp.
  pose proof (DecimalZ.of_to (Zneg p)) as Hn.
  cbn [Z.to_int] in Hp, Hn.
  destruct (to_uint_head p) as (c & r & E & Hc & H0 & Hm).
  unfold match_integer, int_of_text.
  rewrite E in *.
  change ((c :: r) ++ rest) with (c :: (r ++ rest)) in *.
  change (45 =? 45) with true. cbn iota.
  rewrite Hm, H0, Hc, Hs, Hu. cbn [List.app].
  repeat split; assumption.
Qed.

Lemma within_digit_limit (numeral : str) :
  (decimal_digits numeral <=? int_max_str_digits)%nat = true ->
  (int_max_str_digits <? decimal_digits numeral)%nat = false.
Proof. intros H. apply Nat.ltb_ge. apply Nat.leb_le. exact H. Qed.

Lemma match_number_int_str (n : Z) (rest : str) :
  (decimal_digits (int_str n) <=? int_max_str_digits)%nat = true ->
  number_end rest = true ->
  match_number (int_str n ++ rest) = Some (VInt n, rest).
Proof.
  intros Hlim Hend. pose proof (number_end_digit rest Hend) as Hd.
  apply within_digit_limit in Hlim. revert Hlim.
  unfold match_number, int_str.
  destruct n as [|p|p]; cbn [Z.to_int]; intros Hlim.
  - cbn [uint_str List.app] in *.
    change (match_integer (48 :: rest)) with (Some ([48], rest)).
    cbv beta iota.
    rewrite (match_frac_end _ Hend), (match_exp_end _ Hend), Hlim. reflexivity.
  - destruct (match_integer_to_uint p rest Hd) as (H1 & _ & H2 & _).
    rewrite H1, (match_frac_end _ Hend), (match_exp_end _ Hend), H2, Hlim.
    reflexivity.
  - destruct (match_integer_to_uint p rest Hd) as (_ & H1 & _ & H2).
    change ((45 :: uint_str (Pos.to_uint p)) ++ rest)
      with (45 :: uint_str (Pos.to_uint p) ++ rest).
    rewrite H1, (match_frac_end _ Hend), (match_exp_end _ Hend), H2, Hlim.
    reflexivity.
Qed.

(** An int does not begin like a constant, a string, an array or an object. *)
Lemma int_str_head (n : Z) :
  exists c r, int_str n = c :: r /\ (is_digit c = true \/ c = 45).
Proof.
  unfold int_str. destruct n as [|p|p]; simpl.
  - eexists _, _. split; [reflexivity|]. left; reflexivity.
  - destruct (to_uint_head p) as (c & r & E & Hc & _).
    exists c, r. split; [exact E | left; exact Hc].
  - eexists _, _. split; [reflexivity | right; reflexivity].
Qed.

Lemma strip_prefix_head (p : str) (c : N) (s : str) :
  match p with d :: _ => (d =? c) = false | [] => False end ->
  strip_prefix p (c :: s) = None.
Proof. destruct p as [|d p]; [tauto|]. simpl. intros ->. reflexivity. Qed.

Lemma scan_constant_int_str (n : Z) (rest : str) :
  (decimal_digits (int_str n) <=? int_max_str_digits)%nat = true ->
  number_end rest = true ->
  scan_constant (int_str n ++ rest) = Some (VInt n, rest).
Proof.
  intros Hlim Hend. unfold scan_constant.
  rewrite (match_number_int_str n rest Hlim Hend).
  destruct (int_str_head n) as (c & r & E & Hc). rewrite E.
  change ((c :: r) ++ rest) with (c :: (r ++ rest)).
  assert (H1 : (110 =? c) = false /\ (116 =? c) = false /\ (102 =? c) = false).
  { unfold is_digit in Hc. destruct Hc as [Hc| ->]; [|repeat split; reflexivity].
    apply andb_true_iff in Hc. destruct Hc as [Ha Hb].
    apply N.leb_le in Ha, Hb. repeat split; apply N.eqb_neq; lia. }
  destruct H1 as (Hn & Ht & Hf).
  rewrite !strip_prefix_head by assumption. reflexivity.
Qed.

(** ** Strings *)

Lemma scanstring_plain (c : N) (T : str) :
  (c =? 34) = false -> (c =? 92) = false -> (c <? 32) = false ->
  scanstring (c :: T) = push c (scanstring T).
Proof. intros H1 H2 H3. cbn [scanstring]. rewrite H1, H2, H3. reflexivity. Qed.

Lemma scanstring_short (e ch : N) (T : str) :
  (e =? 117) = false -> backslash_table e = Some ch ->
  scanstring (92 :: e :: T) = push ch (scanstring T).
Proof.
  intros H1 H2. cbn [scanstring].
  change (92 =? 34) with false. change (92 =? 92) with true. cbn iota.
  rewrite H1, H2. reflexivity.
Qed.

Lemma scanstring_unit (h1 h2 h3 h4 uni : N) (T : str) :
  decode_uXXXX h1 h2 h3 h4 = Some uni ->
  (is_high_surrogate uni = true ->
   second_unit T = NoEscape \/
   exists u, second_unit T = Unit u /\ is_low_surrogate u = false) ->
  scanstring (92 :: 117 :: h1 :: h2 :: h3 :: h4 :: T) = push uni (scanstring T).
Proof.
  intros Hd Hs. cbn [scanstring].
  change (92 =? 34) with false. change (92 =? 92) with true.
  change (117 =? 117) with true. cbn iota.
  rewrite Hd. destruct (is_high_surrogate uni); [|reflexivity].
  destruct (Hs eq_refl) as [-> | (u & -> & ->)]; reflexivity.
Qed.

Lemma scanstring_pair (h1 h2 h3 h4 g1 g2 g3 g4 u1 u2 : N) (T : str) :
  decode_uXXXX h1 h2 h3 h4 = Some u1 -> is_high_surrogate u1 = true ->
  decode_uXXXX g1 g2 g3 g4 = Some u2 -> is_low_surrogate u2 = true ->
  scanstring (92 :: 117 :: h1 :: h2 :: h3 :: h4
              :: 92 :: 117 :: g1 :: g2 :: g3 :: g4 :: T)
  = push (65536 + N.lor (N.shiftl (u1 - 55296) 10) (u2 - 56320)) (scanstring T).
Proof.
  intros Hd1 Hh Hd2 Hl. cbn [scanstring].
  change (92 =? 34) with false. change (92 =? 92) with true.
  change (117 =? 117) with true. cbn iota.
  rewrite Hd1, Hh. cbn [second_unit].
  change (92 =? 92) with true. change (117 =? 117) with true. cbn [andb].
  rewrite Hd2, Hl. reflexivity.
Qed.

Lemma hex_value_hex_digit (n : N) : n < 16 -> hex_value (hex_digit n) = Some n.
Proof.
  intros H. unfold hex_digit, hex_value.
  destruct (N.ltb_spec n 10).
  - replace ((48 <=? 48 + n) && (48 + n <=? 57)) with true.
    + f_equal. lia.
    + symmetry. apply andb_true_iff. split; apply N.leb_le; lia.
  - replace ((48 <=? 87 + n) && (87 + n <=? 57)) with false.
    + replace ((97 <=? 87 + n) && (87 + n <=? 102)) with true.
      * f_equal. lia.
      * symmetry. apply andb_true_iff. split; apply N.leb_le; lia.
    + symmetry. apply andb_false_iff. right. apply N.leb_gt. lia.
Qed.

Lemma decode_hex4 (n : N) :
  n < 65536 ->
  decode_uXXXX (hex_digit (n / 4096 mod 16)) (hex_digit (n / 256 mod 16))
               (hex_digit (n / 16 mod 16)) (hex_digit (n mod 16)) = Some n.
Proof.
  intros H. unfold decode_uXXXX.
  rewrite !hex_value_hex_digit by (apply N.mod_upper_bound; discriminate).
  f_equal. zify. Z.to_euclidean_division_equations. lia.
Qed.

Ltac nlia := zify; Z.to_euclidean_division_equations; lia.

Lemma lor_high_low (a b : N) : b < 1024 -> N.lor (a * 1024) b = a * 1024 + b.
Proof.
  intros Hb.
  assert (H0 : N.land (a * 1024) b = 0).
  { apply N.bits_inj_0. intros i. rewrite N.land_spec.
    destruct (N.lt_ge_cases i 10) as [Hi|Hi].
    - change 1024 with (2 ^ 10). rewrite N.mul_pow2_bits_low by exact Hi.
      reflexivity.
    - destruct (N.eq_dec b 0) as [->|Hnz].
      + rewrite N.bits_0. apply andb_false_r.
      + rewrite (N.bits_above_log2 b i), andb_false_r; [reflexivity|].
        apply N.lt_le_trans with 10; [|exact Hi].
        apply N.log2_lt_pow2; [lia | exact Hb]. }
  rewrite (N.add_nocarry_lxor _ _ H0). symmetry. apply N.lxor_lor. exact H0.
Qed.

(** The two units [escape_char] writes for a character beyond 0xFFFF. *)
Lemma surrogate_units (c : N) :
  65536 <= c -> c < 1114112 ->
  let n := c - 65536 in
  let s1 := N.lor 55296 (N.land (N.shiftr n 10) 1023) in
  let s2 := N.lor 56320 (N.land n 1023) in
  s1 < 65536 /\ s2 < 65536 /\
  is_high_surrogate s1 = true /\ is_low_surrogate s2 = true /\
  is_low_surrogate s1 = false /\
  65536 + N.lor (N.shiftl (s1 - 55296) 10) (s2 - 56320) = c.
Proof.
  intros Hlo Hhi n s1 s2.
  assert (Hn : n < 1048576) by (unfold n; lia).
  assert (Hq : n / 1024 < 1024)
    by (apply N.Div0.div_lt_upper_bound; lia).
  assert (Hr : n mod 1024 < 1024) by (apply N.mod_upper_bound; discriminate).
  assert (E1 : s1 = 55296 + n / 1024).
  { unfold s1. change 1023 with (N.ones 10).
    rewrite N.land_ones, N.shiftr_div_pow2. change (2 ^ 10) with 1024.
    rewrite (N.mod_small _ _ Hq).
    change 55296 with (54 * 1024). apply lor_high_low. exact Hq. }
  assert (E2 : s2 = 56320 + n mod 1024).
  { unfold s2. change 1023 with (N.ones 10).
    rewrite N.land_ones. change (2 ^ 10) with 1024.
    change 56320 with (55 * 1024). apply lor_high_low. exact Hr. }
  assert (En : c = n + 65536) by (unfold n; lia).
  clearbody s1 s2 n. subst s1 s2.
  unfold is_high_surrogate, is_low_surrogate.
  repeat split; try nlia.
  - apply andb_true_iff; split; apply N.leb_le; nlia.
  - apply andb_true_iff; split; apply N.leb_le; nlia.
  - apply andb_false_iff; left; apply N.leb_gt; nlia.
  - rewrite (N.add_comm 55296), (N.add_comm 56320), !N.add_sub.
    rewrite N.shiftl_mul_pow2. change (2 ^ 10) with 1024.
    rewrite (lor_high_low _ _ Hr).
    nlia.
Qed.

Lemma escape_char_shape (c : N) :
  c < 1114112 -> escape_shape c (escape_char c).
Proof.
  intros Hc. unfold escape_char.
  destruct (N.eqb_spec c 34) as [->|H34]; [apply shape_short; reflexivity|].
  destruct (N.eqb_spec c 92) as [->|H92]; [apply shape_short; reflexivity|].
  destruct (N.eqb_spec c 10) as [->|H10]; [apply shape_short; reflexivity|].
  destruct (N.eqb_spec c 13) as [->|H13]; [apply shape_short; reflexivity|].
  destruct (N.eqb_spec c 9) as [->|H9]; [apply shape_short; reflexivity|].
  destruct (N.eqb_spec c 8) as [->|H8]; [apply shape_short; reflexivity|].
  destruct (N.eqb_spec c 12) as [->|H12]; [apply shape_short; reflexivity|].
  destruct ((32 <=? c) && (c <=? 126)) eqn:Hp.
  - apply andb_true_iff in Hp. destruct Hp as [Hlo _]. apply N.leb_le in Hlo.
    apply shape_plain; [apply N.eqb_neq; assumption ..|].
    apply N.ltb_ge. exact Hlo.
  - destruct (N.ltb_spec c 65536) as [Hu|Hu]; [apply shape_unit; exact Hu|].
    destruct (surrogate_units c Hu Hc) as (A & B & C & D & E & F).
    cbv zeta. apply shape_pair; assumption.
Qed.

Lemma text_ok_cons (c : N) (r : str) :
  text_ok (c :: r) = true ->
  c < 1114112 /\ (is_high_surrogate c = true -> low_head r = false) /\
  text_ok r = true.
Proof.
  cbn [text_ok]. rewrite !andb_true_iff, negb_true_iff, N.ltb_lt.
  intros [[H1 H2] H3]. repeat split; auto.
  intros Hh. rewrite Hh in H2. exact H2.
Qed.

Lemma second_unit_escaped (s : str) (rest : str) :
  text_ok s = true -> low_head s = false ->
  let T := flat_map escape_char s ++ 34 :: rest in
  second_unit T = NoEscape \/
  exists u, second_unit T = Unit u /\ is_low_surrogate u = false.
Proof.
  intros Hok Hlow T. subst T. destruct s as [|c s]; cbn [flat_map List.app].
  - left. destruct rest; reflexivity.
  - apply text_ok_cons in Hok. destruct Hok as (Hc & _ & _).
    cbn [low_head] in Hlow.
    rewrite <- List.app_assoc.
    set (T2 := flat_map escape_char s ++ 34 :: rest).
    destruct (escape_char_shape c Hc)
      as [e He _|H34 H92 _|Hu|s1 s2 H1 H2 _ _ Hl1 _].
    + left. cbn [List.app second_unit]. change (92 =? 92) with true.
      rewrite He. reflexivity.
    + left. cbn [List.app second_unit]. destruct T2; [reflexivity|].
      rewrite H92. reflexivity.
    + right. exists c. split; [|exact Hlow].
      unfold hex4. cbn [List.app second_unit]. change (92 =? 92) with true.
      change (117 =? 117) with true. cbn [andb].
      rewrite (decode_hex4 c Hu). reflexivity.
    + right. exists s1. split; [|exact Hl1].
      unfold hex4. cbn [List.app second_unit]. change (92 =? 92) with true.
      change (117 =? 117) with true. cbn [andb].
      rewrite (decode_hex4 s1 H1). reflexivity.
Qed.

(** Scanning what [encode_basestring_ascii] wrote gives the text back. *)
Lemma scanstring_escaped (s : str) (rest : str) :
  text_ok s = true ->
  scanstring (flat_map escape_char s ++ 34 :: rest) = Some (s, rest).
Proof.
  induction s as [|c s IH]; intros Hok.
  - reflexivity.
  - pose proof (text_ok_cons c s Hok) as (Hc & Hhigh & Hs).
    cbn [flat_map]. rewrite <- List.app_assoc.
    pose proof (second_unit_escaped s rest Hs) as Hsec. cbv zeta in Hsec.
    specialize (IH Hs).
    set (T := flat_map escape_char s ++ 34 :: rest) in *.
    destruct (escape_char_shape c Hc)
      as [e He Hb|H34 H92 H32|Hu|s1 s2 H1 H2 Hh1 Hl2 _ Hcomb].
    + cbn [List.app]. rewrite (scanstring_short e c T He Hb), IH. reflexivity.
    + cbn [List.app]. rewrite (scanstring_plain c T H34 H92 H32), IH. reflexivity.
    + unfold hex4. cbn [List.app].
      rewrite (scanstring_unit _ _ _ _ c T (decode_hex4 c Hu)), IH;
        [reflexivity|].
      intros Hh. apply Hsec. apply Hhigh. exact Hh.
    + unfold hex4. cbn [List.app].
      rewrite (scanstring_pair _ _ _ _ _ _ _ _ s1 s2 T
                 (decode_hex4 s1 H1) Hh1 (decode_hex4 s2 H2) Hl2), IH, Hcomb.
      reflexivity.
Qed.

Lemma scanstring_encoded (s : str) (rest : str) :
  text_ok s = true ->
  exists T, encode_basestring_ascii s ++ rest = 34 :: T /\
            scanstring T = Some (s, rest).
Proof.
  intros Hok. exists (flat_map escape_char s ++ 34 :: rest). split.
  - unfold encode_basestring_ascii. cbn [List.app]. rewrite <- List.app_assoc. reflexivity.
  - apply scanstring_escaped. exact Hok.
Qed.

(** ** Values *)

Lemma value_induction (P : value -> Prop) :
  P VNone ->
  (forall b, P (VBool b)) ->
  (forall n, P (VInt n)) ->
  (forall l, P (VFloat l)) ->
  (forall s, P (VStr s)) ->
  (forall items, Forall P items -> P (VList items)) ->
  (forall items, Forall (fun kv => P (snd kv)) items -> P (VDict items)) ->
  forall v, P v.
Proof.
  intros HN HB HI HF HS HL HD.
  fix IH 1. intros [|b|n|l|s|items|items].
  - exact HN.
  - apply HB.
  - apply HI.
  - apply HF.
  - apply HS.
  - apply HL. induction items as [|x xs IHxs]; constructor;
      [apply IH | exact IHxs].
  - apply HD. induction items as [|x xs IHxs]; constructor;
      [apply IH | exact IHxs].
Qed.

(** White space *)

Lemma skip_ws_start (s : str) :
  match s with c :: _ => is_ws c = false | [] => True end -> skip_ws s = s.
Proof. destruct s as [|c r]; simpl; [reflexivity|]. intros ->. reflexivity. Qed.

Lemma skip_ws_spaces (n : nat) (s : str) :
  skip_ws (repeat 32 n ++ s) = skip_ws s.
Proof. induction n as [|n IH]; [reflexivity|]. exact IH. Qed.

Lemma skip_ws_newline_indent (indent : option nat) (level : nat) (s : str) :
  skip_ws (newline_indent indent level ++ s) = skip_ws s.
Proof.
  destruct indent as [n|]; [|reflexivity].
  unfold newline_indent. cbn [List.app]. cbn [skip_ws].
  change (is_ws 10) with true. cbn iota. apply skip_ws_spaces.
Qed.

(** The separator is a comma and then white space only. *)
Lemma item_separator_shape (indent : option nat) (level : nat) :
  exists W, item_separator indent level = 44 :: W /\
            forall s, skip_ws (W ++ s) = skip_ws s.
Proof.
  destruct indent as [n|].
  - exists (newline_indent (Some n) level). split; [reflexivity|].
    apply skip_ws_newline_indent.
  - exists [32]. split; reflexivity.
Qed.

Lemma value_end_number_end (rest : str) :
  value_end rest = true -> number_end rest = true.
Proof.
  destruct rest as [|c r]; [reflexivity|]. unfold value_end, number_end, is_digit.
  rewrite !orb_true_iff, !N.eqb_eq. intros [[[-> | ->] | ->] | ->]; reflexivity.
Qed.

Lemma value_end_closing (indent : option nat) (level : nat) (c : N) (rest : str) :
  c = 93 \/ c = 125 ->
  value_end (newline_indent indent level ++ c :: rest) = true.
Proof. destruct indent; intros [-> | ->]; reflexivity. Qed.

Lemma value_end_separator (indent : option nat) (level : nat) (rest : str) :
  value_end (item_separator indent level ++ rest) = true.
Proof. destruct indent; reflexivity. Qed.

(** ** Floats *)

Lemma break_at_spec (p : N -> bool) (s : str) :
  s = fst (break_at p s) ++ snd (break_at p s) /\
  match snd (break_at p s) with
  | [] => True
  | c :: _ => p c = true
  end.
Proof.
  induction s as [|c r [IH1 IH2]]; cbn [break_at].
  - split; [reflexivity | exact I].
  - destruct (p c) eqn:E; cbn [fst snd List.app].
    + split; [reflexivity | exact E].
    + destruct (break_at p r) as [before from]. cbn [fst snd List.app] in *.
      split; [f_equal; exact IH1 | exact IH2].
Qed.

Lemma span_digits_all (ds r : str) :
  forallb is_digit ds = true -> no_digit_ahead r ->
  span_digits (ds ++ r) = (ds, r).
Proof.
  intros Hds Hr. induction ds as [|c ds IH]; cbn [List.app].
  - destruct r as [|c r]; [reflexivity|]. cbn [span_digits].
    cbn [no_digit_ahead] in Hr. rewrite Hr. reflexivity.
  - cbn [forallb] in Hds. apply andb_true_iff in Hds. destruct Hds as [Hc Hds].
    cbn [span_digits]. rewrite Hc, (IH Hds). reflexivity.
Qed.

Lemma match_integer_part (i T : str) :
  is_integer_part (without_sign true false i) = true -> no_digit_ahead T ->
  match_integer (i ++ T) = Some (i, T).
Proof.
  assert (H : forall sign u,
            is_integer_part u = true -> no_digit_ahead T ->
            match u ++ T with
            | c :: r =>
                if c =? 48 then Some (sign ++ [48], r)
                else if is_digit c then
                  let (ds, rest) := span_digits (u ++ T) in Some (sign ++ ds, rest)
                else None
            | [] => None
            end = Some (sign ++ u, T)).
  { intros sign u Hu HT. destruct u as [|c [|c2 u]]; [discriminate| |].
    - cbn [is_integer_part] in Hu. cbn [List.app].
      destruct (c =? 48) eqn:E0.
      + apply N.eqb_eq in E0. subst c. reflexivity.
      + rewrite Hu.
        change (c :: T) with ([c] ++ T).
        rewrite span_digits_all; [reflexivity| |exact HT].
        cbn [forallb]. rewrite Hu. reflexivity.
    - cbn [is_integer_part] in Hu. apply andb_true_iff in Hu.
      destruct Hu as [H0 Hall]. apply negb_true_iff in H0.
      pose proof Hall as Hall'. cbn [forallb] in Hall'.
      apply andb_true_iff in Hall'. destruct Hall' as [Hc _].
      change ((c :: c2 :: u) ++ T) with (c :: (c2 :: u) ++ T) at 1.
      cbv iota. rewrite H0, Hc.
      rewrite (span_digits_all _ _ Hall HT). reflexivity. }
  intros Hi HT. unfold match_integer.
  destruct i as [|c i]; [discriminate|].
  cbn [without_sign andb orb] in Hi. rewrite orb_false_r in Hi.
  cbn [List.app]. destruct (c =? 45) eqn:E.
  - apply N.eqb_eq in E. subst c. exact (H [45] i Hi HT).
  - exact (H [] (c :: i) Hi HT).
Qed.

Lemma match_frac_none (T : str) :
  match T with c :: _ => (c =? 46) = false | [] => True end ->
  match_frac T = ([], T).
Proof. destruct T as [|c r]; [reflexivity|]. cbn [match_frac]. intros ->. reflexivity. Qed.

Lemma all_digits_cons (s : str) :
  all_digits s = true ->
  exists c r, s = c :: r /\ forallb is_digit s = true.
Proof. destruct s as [|c r]; [discriminate|]. intros H. exists c, r. split; [reflexivity | exact H]. Qed.

Lemma match_frac_some (p : N) (digits T : str) :
  (p =? 46) = true -> all_digits digits = true -> no_digit_ahead T ->
  match_frac ((p :: digits) ++ T) = (p :: digits, T).
Proof.
  intros Hp Hd HT. apply N.eqb_eq in Hp. subst p.
  destruct (all_digits_cons _ Hd) as (c & r & -> & Hall).
  cbn [List.app match_frac]. change (46 =? 46) with true. cbv iota.
  change (c :: r ++ T) with ((c :: r) ++ T).
  rewrite (span_digits_all _ _ Hall HT). reflexivity.
Qed.

Lemma match_exp_some (e : N) (signed rest : str) :
  (e =? 101) || (e =? 69) = true ->
  all_digits (without_sign true true signed) = true -> no_digit_ahead rest ->
  match_exp ((e :: signed) ++ rest) = (e :: signed, rest).
Proof.
  intros He Hd Hr. cbn [List.app match_exp]. rewrite He.
  destruct signed as [|d r]; [discriminate|].
  cbn [without_sign andb] in Hd. cbn [List.app].
  destruct ((d =? 45) || (d =? 43)) eqn:Es.
  - destruct (all_digits_cons _ Hd) as (c & r' & -> & Hall).
    change ((c :: r') ++ rest) with ((c :: r') ++ rest).
    rewrite (span_digits_all _ _ Hall Hr). reflexivity.
  - destruct (all_digits_cons _ Hd) as (c & r' & [= <- <-] & Hall).
    change (d :: r ++ rest) with ((d :: r) ++ rest).
    rewrite (span_digits_all _ _ Hall Hr). reflexivity.
Qed.

Lemma number_end_ahead (rest : str) :
  number_end rest = true ->
  no_digit_ahead rest /\
  match rest with c :: _ => (c =? 46) = false | [] => True end.
Proof.
  destruct rest as [|c r]; cbn [number_end no_digit_ahead]; [tauto|].
  rewrite negb_true_iff, !orb_false_iff. tauto.
Qed.

(** The parts of a float literal. *)
Lemma float_literal_parts (l : str) :
  is_float_literal l = true ->
  exists integer fraction exponent,
    l = integer ++ fraction ++ exponent /\
    is_integer_part (without_sign true false integer) = true /\
    match fraction with
    | [] => True
    | p :: digits => (p =? 46) = true /\ all_digits digits = true
    end /\
    match exponent with
    | [] => True
    | e :: signed =>
        (e =? 101) || (e =? 69) = true /\
        all_digits (without_sign true true signed) = true
    end /\
    (fraction <> [] \/ exponent <> []).
Proof.
  unfold is_float_literal.
  pose proof (break_at_spec (fun c => (c =? 101) || (c =? 69)) l) as [Hl He].
  destruct (break_at (fun c => (c =? 101) || (c =? 69)) l)
    as [mantissa exponent].
  pose proof (break_at_spec (fun c => c =? 46) mantissa) as [Hm Hf].
  destruct (break_at (fun c => c =? 46) mantissa) as [integer fraction].
  cbn [fst snd] in *. rewrite !andb_true_iff. intros [[[Hi Hfd] Hed] Hne].
  exists integer, fraction, exponent.
  split; [rewrite Hl, Hm, <- List.app_assoc; reflexivity|].
  split; [exact Hi|].
  split; [destruct fraction; [exact I | split; assumption]|].
  split; [destruct exponent; [exact I | split; assumption]|].
  destruct fraction; [|left; discriminate].
  destruct exponent; [discriminate | right; discriminate].
Qed.

Lemma is_digit_range (c : N) : is_digit c = true -> 48 <= c <= 57.
Proof.
  unfold is_digit. rewrite andb_true_iff, !N.leb_le. tauto.
Qed.

Lemma match_number_float (l rest : str) :
  is_float_literal l = true -> number_end rest = true ->
  match_number (l ++ rest) = Some (VFloat l, rest).
Proof.
  intros Hl Hend.
  destruct (float_literal_parts l Hl)
    as (integer & fraction & exponent & -> & Hi & Hf & He & Hne).
  destruct (number_end_ahead rest Hend) as [Hr Hr46].
  unfold match_number. rewrite <- !List.app_assoc.
  assert (He_ahead : no_digit_ahead (exponent ++ rest)).
  { destruct exponent as [|e signed]; [exact Hr|].
    destruct He as [He _]. cbn [List.app no_digit_ahead].
    apply orb_true_iff in He. rewrite !N.eqb_eq in He.
    destruct He as [-> | ->]; reflexivity. }
  assert (Hf_ahead : no_digit_ahead (fraction ++ exponent ++ rest)).
  { destruct fraction as [|p digits]; [exact He_ahead|].
    destruct Hf as [Hp _]. apply N.eqb_eq in Hp. subst p. reflexivity. }
  rewrite (match_integer_part _ _ Hi Hf_ahead).
  destruct fraction as [|p digits].
  - cbn [List.app]. rewrite match_frac_none.
    + destruct exponent as [|e signed]; [destruct Hne; congruence|].
      destruct He as [He Hd]. rewrite (match_exp_some _ _ _ He Hd Hr).
      reflexivity.
    + destruct exponent as [|e signed]; [destruct Hne; congruence|].
      destruct He as [He _]. cbn [List.app].
      apply orb_true_iff in He. rewrite !N.eqb_eq in He.
      destruct He as [-> | ->]; reflexivity.
  - destruct Hf as [Hp Hd].
    rewrite (match_frac_some _ _ _ Hp Hd He_ahead).
    destruct exponent as [|e signed].
    + cbn [List.app]. rewrite (match_exp_end _ Hend), List.app_nil_r.
      reflexivity.
    + destruct He as [He Hd'].
      rewrite (match_exp_some _ _ _ He Hd' Hr). reflexivity.
Qed.

(** A float literal begins with a digit, or with a minus sign and a digit. *)
Lemma float_literal_head (l : str) :
  is_float_literal l = true ->
  exists c r, l = c :: r /\
    (is_digit c = true \/
     c = 45 /\ exists d r', r = d :: r' /\ is_digit d = true).
Proof.
  intros Hl.
  destruct (float_literal_parts l Hl)
    as (integer & fraction & exponent & -> & Hi & Hf & _ & Hne).
  destruct integer as [|c i]; [discriminate|].
  exists c, (i ++ fraction ++ exponent). split; [reflexivity|].
  cbn [without_sign andb orb] in Hi. rewrite orb_false_r in Hi.
  assert (Hhead : forall u, is_integer_part u = true ->
            exists d u', u = d :: u' /\ is_digit d = true).
  { intros [|d [|d2 u]] Hu; [discriminate| |].
    - exists d, []. split; [reflexivity | exact Hu].
    - exists d, (d2 :: u). split; [reflexivity|].
      cbn [is_integer_part forallb] in Hu.
      rewrite !andb_true_iff in Hu. tauto. }
  destruct (c =? 45) eqn:E.
  - apply N.eqb_eq in E. subst c. right. split; [reflexivity|].
    destruct (Hhead i Hi) as (d & u' & -> & Hd).
    exists d, (u' ++ fraction ++ exponent). split; [reflexivity | exact Hd].
  - left. destruct (Hhead _ Hi) as (d & u' & [= <- <-] & Hd). exact Hd.
Qed.

Lemma digit_value_start (c : N) :
  is_digit c = true \/ c = 45 -> value_start c = true.
Proof.
  unfold value_start, is_ws, is_digit.
  intros [Hd | ->]; [|reflexivity].
  apply andb_true_iff in Hd. destruct Hd as [Ha Hb].
  apply N.leb_le in Ha, Hb.
  repeat (apply andb_true_iff; split); apply negb_true_iff;
    rewrite ?orb_false_iff; repeat split; apply N.eqb_neq; lia.
Qed.

Lemma scan_constant_float (l rest : str) :
  is_float_literal l = true -> number_end rest = true ->
  scan_constant (l ++ rest) = Some (VFloat l, rest).
Proof.
  intros Hl Hend. unfold scan_constant.
  rewrite (match_number_float l rest Hl Hend).
  destruct (float_literal_head l Hl) as (c & r & -> & Hc).
  change ((c :: r) ++ rest) with (c :: (r ++ rest)).
  assert (H1 : (110 =? c) = false /\ (116 =? c) = false /\ (102 =? c) = false).
  { destruct Hc as [Hc|[-> _]]; [|repeat split; reflexivity].
    apply is_digit_range in Hc. repeat split; apply N.eqb_neq; lia. }
  destruct H1 as (Hn & Ht & Hf).
  rewrite !strip_prefix_head by assumption. reflexivity.
Qed.

Section Encoded.
Context {interp : Interp}.

(** The encoder writes a finite float as its literal. *)
Lemma floatstr_finite (l : str) : finite_float l = true -> floatstr l = l.
Proof.
  unfold finite_float. rewrite andb_true_iff, str_eqb_eq. intros [Hl Hr].
  unfold floatstr. rewrite Hr.
  destruct (float_literal_head l Hl) as (c & r & -> & Hc).
  assert (H : str_eqb (c :: r) (lit "nan") = false /\
              str_eqb (c :: r) (lit "inf") = false /\
              str_eqb (c :: r) (lit "-inf") = false).
  { destruct Hc as [Hc|(-> & d & r' & -> & Hd)].
    - apply is_digit_range in Hc.
      repeat split; apply str_eqb_neq; intros [= -> _]; lia.
    - apply is_digit_range in Hd.
      repeat split; apply str_eqb_neq; try discriminate.
      intros [= -> _]; lia. }
  destruct H as (-> & -> & ->). reflexivity.
Qed.

Lemma iterencode_start (indent : option nat) (level : nat) (v : value) :
  json_compatible v = true ->
  exists c r, iterencode indent level v = c :: r /\ value_start c = true.
Proof.
  destruct v as [|[|]|n|l|s|[|x xs]|[|x xs]]; cbn [json_compatible];
    intros Hc;
    try (eexists _, _; split; [reflexivity | reflexivity]).
  - cbn [iterencode].
    destruct (int_str_head n) as (c & r & E & Hd).
    exists c, r. split; [exact E | exact (digit_value_start c Hd)].
  - cbn [iterencode]. rewrite (floatstr_finite l Hc).
    apply andb_true_iff in Hc. destruct Hc as [Hl _].
    destruct (float_literal_head l Hl) as (c & r & -> & Hd).
    exists c, r. split; [reflexivity|]. apply digit_value_start. tauto.
Qed.

Lemma skip_ws_iterencode (indent : option nat) (level : nat) (v : value)
      (rest : str) :
  json_compatible v = true ->
  skip_ws (iterencode indent level v ++ rest) = iterencode indent level v ++ rest.
Proof.
  intros Hc. destruct (iterencode_start indent level v Hc) as (c & r & E & Hs).
  rewrite E. apply skip_ws_start. cbn [List.app].
  unfold value_start in Hs. rewrite !andb_true_iff, !negb_true_iff in Hs. tauto.
Qed.

End Encoded.

Lemma scan_elements_eq (fuel depth : nat) (s : str) :
  scan_elements (S fuel) depth s =
  match scan_once fuel depth s with
  | None => None
  | Some (v, r) =>
      match skip_ws r with
      | c :: r1 =>
          if c =? 93 then Some ([v], r1)
          else if c =? 44 then push v (scan_elements fuel depth (skip_ws r1))
          else None
      | [] => None
      end
  end.
Proof. reflexivity. Qed.

Lemma scan_members_eq (fuel depth : nat) (s : str) :
  scan_members (S fuel) depth s =
  match scanstring s with
  | None => None
  | Some (key, r) =>
      match skip_ws r with
      | c :: r1 =>
          if c =? 58 then
            match scan_once fuel depth (skip_ws r1) with
            | None => None
            | Some (v, r2) =>
                match skip_ws r2 with
                | d :: r3 =>
                    if d =? 125 then Some ([(key, v)], r3)
                    else if d =? 44 then
                      match skip_ws r3 with
                      | q :: r4 =>
                          if q =? 34 then
                            push (key, v) (scan_members fuel depth r4)
                          else None
                      | [] => None
                      end
                    else None
                | [] => None
                end
            end
          else None
      | [] => None
      end
  end.
Proof. reflexivity. Qed.

Lemma join_cons (sep p : str) (ps : list str) (C : str) :
  join sep (p :: ps) ++ C =
  p ++ match ps with [] => C | _ :: _ => sep ++ join sep ps ++ C end.
Proof.
  destruct ps as [|q ps]; [reflexivity|].
  cbn [join]. rewrite <- !List.app_assoc. reflexivity.
Qed.

Lemma skip_ws_separator (indent : option nat) (level : nat) (X : str) :
  exists r1, skip_ws (item_separator indent level ++ X) = 44 :: r1 /\
             skip_ws r1 = skip_ws X.
Proof.
  destruct (item_separator_shape indent level) as (W & -> & HW).
  exists (W ++ X). split; [reflexivity | apply HW].
Qed.

Section RoundTrip.
Context {interp : Interp}.
Variable indent : option nat.

Lemma scan_elements_join (level : nat) (rest : str) (items : list value) :
  items <> [] ->
  Forall (fun x => json_compatible x = true /\ scans_back indent x) items ->
  forall fuel depth : nat,
    (fold_right (fun x n => S (scans x + n)) O items <= fuel)%nat ->
    (fold_right (fun x n => Nat.max (nesting x) n) O items <= depth)%nat ->
    scan_elements fuel depth
      (join (item_separator indent (S level))
         (List.map (iterencode indent (S level)) items)
       ++ newline_indent indent level ++ 93 :: rest)
    = Some (items, rest).
Proof.
  induction items as [|x xs IH]; [congruence|].
  intros _ Hall fuel depth Hfuel Hdepth.
  inversion Hall as [|? ? [Hcx Hx] Hxs]; subst.
  cbn [fold_right] in Hfuel, Hdepth.
  destruct fuel as [|fuel]; [lia|].
  rewrite scan_elements_eq.
  destruct xs as [|y ys]; cbn [List.map]; rewrite join_cons.
  - rewrite (Hx (S level) fuel depth) by
      (try lia; apply value_end_closing; left; reflexivity).
    rewrite skip_ws_newline_indent. reflexivity.
  - rewrite (Hx (S level) fuel depth) by (try lia; apply value_end_separator).
    destruct (skip_ws_separator indent (S level)
                (join (item_separator indent (S level))
                   (iterencode indent (S level) y
                    :: List.map (iterencode indent (S level)) ys)
                 ++ newline_indent indent level ++ 93 :: rest))
      as (r1 & -> & ->).
    change (44 =? 93) with false. change (44 =? 44) with true. cbn iota.
    assert (Hy : json_compatible y = true) by (inversion Hxs; tauto).
    rewrite join_cons.
    rewrite (skip_ws_iterencode indent (S level) y _ Hy).
    rewrite <- join_cons.
    change (iterencode indent (S level) y
            :: List.map (iterencode indent (S level)) ys)
      with (List.map (iterencode indent (S level)) (y :: ys)).
    rewrite IH; [reflexivity | discriminate | exact Hxs | lia | lia].
Qed.

End RoundTrip.

(** ** Dicts built from pairs *)

Lemma dict_set_fresh (d : list (str * value)) (k : str) (v : value) :
  existsb (fun kv => str_eqb k (fst kv)) d = false ->
  dict_set d k v = d ++ [(k, v)].
Proof.
  induction d as [|[k' v'] d IH]; cbn [existsb dict_set List.app fst].
  - reflexivity.
  - rewrite orb_false_iff. intros [-> H]. rewrite (IH H). reflexivity.
Qed.

Lemma keys_distinct_app (d : list (str * value)) (kv : str * value)
      (ps : list (str * value)) :
  keys_distinct (d ++ kv :: ps) = true ->
  existsb (fun kv' => str_eqb (fst kv) (fst kv')) d = false.
Proof.
  induction d as [|a d IH]; cbn [List.app keys_distinct existsb].
  - reflexivity.
  - rewrite andb_true_iff, negb_true_iff, existsb_app. cbn [existsb].
    rewrite !orb_false_iff. intros [(_ & Ha & _) Hd].
    split; [|exact (IH Hd)].
    apply str_eqb_neq. apply str_eqb_neq in Ha. congruence.
Qed.

Lemma dict_of_pairs_distinct (pairs : list (str * value)) :
  keys_distinct pairs = true -> dict_of_pairs pairs = pairs.
Proof.
  unfold dict_of_pairs.
  assert (H : forall acc,
             keys_distinct (acc ++ pairs) = true ->
             fold_left (fun d kv => dict_set d (fst kv) (snd kv)) pairs acc
             = acc ++ pairs).
  { induction pairs as [|[k v] ps IH]; intros acc Hd; cbn [fold_left fst snd].
    - symmetry. apply List.app_nil_r.
    - rewrite (dict_set_fresh acc k v (keys_distinct_app acc (k, v) ps Hd)).
      rewrite IH; rewrite <- List.app_assoc; [reflexivity | exact Hd]. }
  intros Hd. exact (H [] Hd).
Qed.

Lemma skip_ws_space (s : str) : skip_ws (32 :: s) = skip_ws s.
Proof. reflexivity. Qed.

Section RoundTripObjects.
Context {interp : Interp}.
Variable indent : option nat.

Lemma scan_members_join (level : nat) (rest : str)
      (items : list (str * value)) :
  items <> [] ->
  Forall (fun kv => text_ok (fst kv) = true /\
                    json_compatible (snd kv) = true /\
                    scans_back indent (snd kv)) items ->
  forall fuel depth : nat,
    (fold_right (fun kv n => S (scans (snd kv) + n)) O items <= fuel)%nat ->
    (fold_right (fun kv n => Nat.max (nesting (snd kv)) n) O items
     <= depth)%nat ->
    exists r1,
      join (item_separator indent (S level))
        (List.map (fun kv => encode_basestring_ascii (fst kv) ++ lit ": "
                             ++ iterencode indent (S level) (snd kv)) items)
      ++ newline_indent indent level ++ 125 :: rest = 34 :: r1 /\
      scan_members fuel depth r1 = Some (items, rest).
Proof.
  induction items as [|[k v] xs IH]; [congruence|].
  intros _ Hall fuel depth Hfuel Hdepth.
  inversion Hall as [|? ? (Hk & Hcv & Hv) Hxs]; subst.
  cbn [fold_right fst snd] in *.
  destruct fuel as [|fuel]; [lia|].
  cbn [List.map fst snd]. rewrite join_cons.
  set (tail := match List.map _ xs with [] => _ | _ :: _ => _ end).
  exists (flat_map escape_char k
          ++ 34 :: 58 :: 32 :: iterencode indent (S level) v ++ tail).
  split.
  { unfold encode_basestring_ascii. cbn [List.app].
    rewrite <- !List.app_assoc. reflexivity. }
  rewrite scan_members_eq, (scanstring_escaped k _ Hk).
  rewrite (skip_ws_start (58 :: _)) by reflexivity.
  change (58 =? 58) with true. cbn iota.
  rewrite skip_ws_space.
  rewrite (skip_ws_iterencode indent (S level) v _ Hcv).
  subst tail. destruct xs as [|y ys]; cbn [List.map].
  - rewrite (Hv (S level) fuel depth) by
      (try lia; apply value_end_closing; right; reflexivity).
    rewrite skip_ws_newline_indent. reflexivity.
  - rewrite (Hv (S level) fuel depth) by (try lia; apply value_end_separator).
    match goal with
    | |- context [skip_ws (item_separator indent (S level) ++ ?X)] =>
        destruct (skip_ws_separator indent (S level) X) as (r1 & -> & ->);
        change X with
          (join (item_separator indent (S level))
             (List.map (fun kv => encode_basestring_ascii (fst kv) ++ lit ": "
                                  ++ iterencode indent (S level) (snd kv))
                (y :: ys))
           ++ newline_indent indent level ++ 125 :: rest)
    end.
    change (44 =? 125) with false. change (44 =? 44) with true. cbn iota.
    destruct (IH ltac:(discriminate) Hxs fuel depth ltac:(lia) ltac:(lia))
      as (r4 & E4 & S4).
    rewrite E4, (skip_ws_start (34 :: _)) by reflexivity.
    change (34 =? 34) with true. cbn iota. rewrite S4. reflexivity.
Qed.

End RoundTripObjects.

Lemma scan_once_eq (fuel depth : nat) (c : N) (r : str) :
  scan_once (S fuel) depth (c :: r) =
  if c =? 34 then
    match scanstring r with
    | Some (t, rest) => Some (VStr t, rest)
    | None => None
    end
  else if c =? 123 then
    match depth with
    | O => None
    | S depth =>
        match skip_ws r with
        | d :: r1 =>
            if d =? 125 then Some (VDict [], r1)
            else if d =? 34 then
              match scan_members fuel depth r1 with
              | Some (pairs, rest) => Some (VDict (dict_of_pairs pairs), rest)
              | None => None
              end
            else None
        | [] => None
        end
    end
  else if c =? 91 then
    match depth with
    | O => None
    | S depth =>
        match skip_ws r with
        | d :: r1 =>
            if d =? 93 then Some (VList [], r1)
            else
              match scan_elements fuel depth (d :: r1) with
              | Some (values, rest) => Some (VList values, rest)
              | None => None
              end
        | [] => None
        end
    end
  else scan_constant (c :: r).
Proof. reflexivity. Qed.

Section RoundTripValues.
Context {interp : Interp}.
Variable indent : option nat.

Lemma forallb_Forall_and {A} (f : A -> bool) (P : A -> Prop) (l : list A) :
  forallb f l = true -> Forall (fun x => f x = true -> P x) l ->
  Forall (fun x => f x = true /\ P x) l.
Proof.
  intros Hf Hall. rewrite forallb_forall in Hf. rewrite Forall_forall in *.
  intros x Hin. split; [apply Hf, Hin | apply Hall; [exact Hin | apply Hf, Hin]].
Qed.

(** Scanning the text [iterencode] wrote for a JSON-compatible value,
    whatever follows it, gives the value back, when the ints are within the
    digit limit and the depth allows the nesting. *)
Lemma scan_once_iterencode (v : value) :
  json_compatible v = true -> ints_in_range v = true -> scans_back indent v.
Proof.
  induction v as [|b|n|l|s|items IH|items IH] using value_induction;
    intros Hc Hi level fuel depth rest Hfuel Hdepth Hend;
    (destruct fuel as [|fuel]; [cbn [scans] in Hfuel; lia|]).
  - reflexivity.
  - destruct b; reflexivity.
  - cbn [iterencode]. cbn [ints_in_range] in Hi.
    pose proof (scan_constant_int_str n rest Hi (value_end_number_end _ Hend))
      as Hn.
    destruct (int_str_head n) as (c & r & E & Hd). rewrite E in *.
    cbn [List.app] in *. rewrite scan_once_eq.
    assert (H : (c =? 34) = false /\ (c =? 123) = false /\ (c =? 91) = false).
    { unfold is_digit in Hd. destruct Hd as [Hd| ->]; [|repeat split; reflexivity].
      apply andb_true_iff in Hd. destruct Hd as [Ha Hb].
      apply N.leb_le in Ha, Hb. repeat split; apply N.eqb_neq; lia. }
    destruct H as (-> & -> & ->). exact Hn.
  - cbn [iterencode json_compatible] in *. rewrite (floatstr_finite l Hc).
    apply andb_true_iff in Hc. destruct Hc as [Hl _].
    pose proof (scan_constant_float l rest Hl (value_end_number_end _ Hend))
      as Hn.
    destruct (float_literal_head l Hl) as (c & r & -> & Hd).
    cbn [List.app] in *. rewrite scan_once_eq.
    assert (H : (c =? 34) = false /\ (c =? 123) = false /\ (c =? 91) = false).
    { destruct Hd as [Hd|[-> _]]; [|repeat split; reflexivity].
      apply is_digit_range in Hd. repeat split; apply N.eqb_neq; lia. }
    destruct H as (-> & -> & ->). exact Hn.
  - cbn [iterencode json_compatible] in *.
    destruct (scanstring_encoded s rest Hc) as (T & -> & HT).
    rewrite scan_once_eq. change (34 =? 34) with true. cbn iota.
    rewrite HT. reflexivity.
  - destruct items as [|x xs];
      [destruct depth as [|depth]; [cbn [nesting] in Hdepth; lia | reflexivity]|].
    cbn [json_compatible ints_in_range] in Hc, Hi.
    assert (Hall : Forall (fun x => json_compatible x = true /\
                                    scans_back indent x) (x :: xs)).
    { rewrite forallb_forall in Hc, Hi. rewrite Forall_forall in *.
      intros y Hin. split; [apply Hc, Hin|].
      apply IH; [exact Hin | apply Hc, Hin | apply Hi, Hin]. }
    assert (Hx : json_compatible x = true) by (inversion Hall; tauto).
    cbn [nesting] in Hdepth.
    destruct depth as [|depth]; [lia|].
    cbn [iterencode]. change (lit "[") with [91]. change (lit "]") with [93].
    cbn [List.app]. rewrite <- !List.app_assoc. cbn [List.app].
    rewrite scan_once_eq.
    change (91 =? 34) with false. change (91 =? 123) with false.
    change (91 =? 91) with true. cbn iota.
    rewrite skip_ws_newline_indent.
    pose proof (scan_elements_join indent level rest (x :: xs)
                  ltac:(discriminate) Hall fuel depth) as Hscan.
    cbn [scans] in Hfuel. specialize (Hscan ltac:(lia) ltac:(lia)).
    revert Hscan. cbn [List.map]. rewrite join_cons.
    rewrite (skip_ws_iterencode indent (S level) x _ Hx).
    destruct (iterencode_start indent (S level) x Hx) as (c & r & E & Hs).
    rewrite E. cbn [List.app]. intros ->.
    unfold value_start in Hs. rewrite !andb_true_iff, !negb_true_iff in Hs.
    destruct Hs as [[[_ ->] _] _]. reflexivity.
  - destruct items as [|[k x] xs];
      [destruct depth as [|depth]; [cbn [nesting] in Hdepth; lia | reflexivity]|].
    cbn [json_compatible ints_in_range] in Hc, Hi. apply andb_true_iff in Hc.
    destruct Hc as [Hkeys Hc].
    assert (Hall : Forall (fun kv => text_ok (fst kv) = true /\
                                     json_compatible (snd kv) = true /\
                                     scans_back indent (snd kv))
                     ((k, x) :: xs)).
    { rewrite forallb_forall in Hc, Hi. rewrite Forall_forall in *.
      intros kv Hin. specialize (Hc kv Hin). apply andb_true_iff in Hc.
      destruct Hc as [Hk Hv]. split; [exact Hk|]. split; [exact Hv|].
      apply IH; [exact Hin | exact Hv | apply Hi, Hin]. }
    cbn [nesting] in Hdepth.
    destruct depth as [|depth]; [lia|].
    cbn [iterencode]. change (lit "{") with [123]. change (lit "}") with [125].
    cbn [List.app]. rewrite <- !List.app_assoc. cbn [List.app].
    rewrite scan_once_eq.
    change (123 =? 34) with false. change (123 =? 123) with true. cbn iota.
    rewrite skip_ws_newline_indent.
    cbn [scans] in Hfuel.
    destruct (scan_members_join indent level rest ((k, x) :: xs)
                ltac:(discriminate) Hall fuel depth ltac:(lia) ltac:(lia))
      as (r1 & E & Hscan).
    rewrite E, (skip_ws_start (34 :: _)) by reflexivity.
    change (34 =? 125) with false. change (34 =? 34) with true. cbn iota.
    rewrite Hscan, (dict_of_pairs_distinct _ Hkeys). reflexivity.
Qed.

End RoundTripValues.

Lemma join_length_bound {A} (g : A -> nat) (f : A -> str) (sep : str)
      (items : list A) :
  (1 <= List.length sep)%nat ->
  Forall (fun x => (g x <= List.length (f x))%nat) items ->
  (fold_right (fun x n => S (g x + n)) O items
   <= List.length (join sep (List.map f items)) + 1)%nat.
Proof.
  intros Hsep. induction items as [|x xs IH]; intros Hall.
  - cbn; lia.
  - inversion Hall as [|? ? Hx Hxs]; subst. specialize (IH Hxs).
    destruct xs as [|y ys].
    + cbn. lia.
    + cbn [fold_right List.map join] in *. rewrite !length_app. lia.
Qed.

Lemma item_separator_length (indent : option nat) (level : nat) :
  (1 <= List.length (item_separator indent level))%nat.
Proof. destruct indent; cbn; lia. Qed.

Section Loads.
Context {interp : Interp}.
Variable indent : option nat.

Lemma iterencode_dict_cons (level : nat) (kv : str * value)
      (items : list (str * value)) :
  iterencode indent level (VDict (kv :: items)) =
  lit "{" ++ newline_indent indent (S level)
  ++ join (item_separator indent (S level))
       (List.map (fun kv => encode_basestring_ascii (fst kv) ++ lit ": "
                            ++ iterencode indent (S level) (snd kv))
          (kv :: items))
  ++ newline_indent indent level ++ lit "}".
Proof. reflexivity. Qed.

Lemma scans_le_length (v : value) :
  json_compatible v = true ->
  forall level, (scans v <= List.length (iterencode indent level v))%nat.
Proof.
  induction v as [|b|n|l|s|items IH|items IH] using value_induction;
    intros Hc level;
    try (destruct (iterencode_start indent level _ Hc) as (c & r & -> & _);
         cbn; lia).
  - destruct items as [|x xs]; [cbn; lia|].
    cbn [json_compatible] in Hc.
    assert (Hall : Forall (fun x => (scans x
                     <= List.length (iterencode indent (S level) x))%nat)
                     (x :: xs)).
    { rewrite forallb_forall in Hc. rewrite Forall_forall in *.
      intros y Hin. apply IH; [exact Hin | apply Hc, Hin]. }
    pose proof (join_length_bound scans (iterencode indent (S level))
                  (item_separator indent (S level)) (x :: xs)
                  (item_separator_length _ _) Hall) as Hb.
    cbn [scans iterencode]. rewrite !length_app. cbn [List.length lit].
    change (List.length (lit "[")) with 1%nat.
    change (List.length (lit "]")) with 1%nat. lia.
  - destruct items as [|[k x] xs]; [cbn; lia|].
    cbn [json_compatible] in Hc. apply andb_true_iff in Hc.
    destruct Hc as [_ Hc].
    assert (Hall : Forall (fun kv => (scans (snd kv)
                     <= List.length (encode_basestring_ascii (fst kv)
                                     ++ lit ": "
                                     ++ iterencode indent (S level) (snd kv)))%nat)
                     ((k, x) :: xs)).
    { rewrite forallb_forall in Hc. rewrite Forall_forall in *.
      intros kv Hin. specialize (Hc kv Hin). apply andb_true_iff in Hc.
      rewrite !length_app.
      eapply Nat.le_trans; [exact (IH kv Hin (proj2 Hc) (S level))|].
      rewrite Nat.add_assoc. apply Nat.le_add_l. }
    pose proof (join_length_bound (fun kv => scans (snd kv)) _
                  (item_separator indent (S level)) ((k, x) :: xs)
                  (item_separator_length _ _) Hall) as Hb.
    cbv beta in Hb.
    rewrite iterencode_dict_cons. cbn [scans]. rewrite !length_app.
    change (List.length (lit "{")) with 1%nat.
    change (List.length (lit "}")) with 1%nat.
    match goal with
    | |- (S _ <= 1 + (_ + (?L + _)))%nat =>
        match type of Hb with
        | (?a <= _ + 1)%nat => change (a <= L + 1)%nat in Hb
        end
    end.
    lia.
Qed.

(** Decoding the JSON text of [v] gives [v], when its ints are within the
    digit limit and the decoder has room for its nesting. *)
Lemma json_loads_text (v : value) :
  json_compatible v = true -> ints_in_range v = true ->
  (nesting v <= decoder_depth)%nat ->
  json_loads (json_text indent v) = Some v.
Proof.
  intros Hc Hi Hd. unfold json_loads, json_text.
  pose proof (skip_ws_iterencode indent 0 v [] Hc) as Hs.
  rewrite List.app_nil_r in Hs. rewrite Hs.
  pose proof (scan_once_iterencode indent v Hc Hi 0%nat
                (2 * List.length (iterencode indent 0 v) + 2)%nat
                decoder_depth []) as H.
  rewrite List.app_nil_r in H. rewrite H; [reflexivity| |exact Hd|reflexivity].
  pose proof (scans_le_length v Hc 0%nat). lia.
Qed.

End Loads.

(** ** The fuel of [json_loads] *)

Lemma skip_ws_length (s : str) : (List.length (skip_ws s) <= List.length s)%nat.
Proof.
  induction s as [|c r IH]; cbn [skip_ws]; [lia|].
  destruct (is_ws c); cbn [List.length]; lia.
Qed.

Lemma push_some {A} (c : A) (o : option (list A * str)) (t : list A) (r : str) :
  push c o = Some (t, r) -> exists t', o = Some (t', r) /\ t = c :: t'.
Proof.
  destruct o as [[t' r']|]; cbn [push]; [|discriminate].
  intros [= <- <-]. exists t'. split; reflexivity.
Qed.

Lemma scanstring_length (s t r : str) :
  scanstring s = Some (t, r) -> (List.length r < List.length s)%nat.
Proof.
  assert (Hle : (List.length s <= List.length s)%nat) by lia.
  revert Hle. generalize (List.length s) at 2 as n. intros n.
  revert s t r.
  induction n as [|n IH]; intros s t r Hle; destruct s as [|c s];
    try (cbn in Hle; lia); try discriminate.
  assert (Hrec : forall s' x t' , (List.length s' <= List.length s)%nat ->
                   push x (scanstring s') = Some (t', r) ->
                   (List.length r < List.length (c :: s))%nat).
  { intros s' x t' Hs' Hp. destruct (push_some _ _ _ _ Hp) as (t'' & Hsc & _).
    cbn [List.length] in *. specialize (IH s' t'' r ltac:(lia) Hsc). lia. }
  cbn [scanstring].
  destruct (c =? 34); [intros [= <- <-]; cbn; lia|].
  destruct (c =? 92).
  - destruct s as [|esc r1]; [discriminate|].
    destruct (esc =? 117).
    + destruct r1 as [|h1 [|h2 [|h3 [|h4 r2]]]]; try discriminate.
      destruct (decode_uXXXX h1 h2 h3 h4) as [uni|]; [|discriminate].
      destruct (is_high_surrogate uni).
      * destruct (second_unit r2) as [| |uni2]; try discriminate.
        -- apply Hrec. cbn; lia.
        -- destruct (is_low_surrogate uni2).
           ++ destruct r2 as [|? [|? [|? [|? [|? [|? r3]]]]]]; try discriminate.
              apply Hrec. cbn; lia.
           ++ apply Hrec. cbn; lia.
      * apply Hrec. cbn; lia.
    + destruct (backslash_table esc); [|discriminate].
      apply Hrec. cbn; lia.
  - destruct (c <? 32); [discriminate|]. apply Hrec. lia.
Qed.

Lemma strip_prefix_length (p s r : str) :
  strip_prefix p s = Some r ->
  List.length s = (List.length p + List.length r)%nat.
Proof.
  revert s. induction p as [|c p IH]; intros s; cbn [strip_prefix].
  - intros [= ->]. reflexivity.
  - destruct s as [|d s]; [discriminate|].
    destruct (c =? d); [|discriminate].
    intros H. cbn [List.length]. rewrite (IH s H). reflexivity.
Qed.

Lemma span_digits_length (s : str) :
  List.length s
  = (List.length (fst (span_digits s)) + List.length (snd (span_digits s)))%nat.
Proof.
  induction s as [|c r IH]; cbn [span_digits]; [reflexivity|].
  destruct (is_digit c); [|reflexivity].
  destruct (span_digits r) as [ds rest]. cbn [fst snd List.length] in *. lia.
Qed.

Lemma match_integer_length (s i r : str) :
  match_integer s = Some (i, r) -> (List.length r < List.length s)%nat.
Proof.
  unfold match_integer.
  assert (H : forall sign s1, (List.length s1 <= List.length s)%nat ->
            match s1 with
            | c :: r0 =>
                if c =? 48 then Some (sign ++ [48], r0)
                else if is_digit c then
                  let (ds, rest) := span_digits s1 in Some (sign ++ ds, rest)
                else None
            | [] => None
            end = Some (i, r) -> (List.length r < List.length s)%nat).
  { intros sign s1 Hs1. destruct s1 as [|c r0]; [discriminate|].
    destruct (c =? 48); [intros [= <- <-]; cbn in Hs1; lia|].
    destruct (is_digit c) eqn:Hd; [|discriminate].
    pose proof (span_digits_length (c :: r0)) as Hl.
    cbn [span_digits] in *. rewrite Hd in *.
    destruct (span_digits r0) as [ds rest]. cbn [fst snd List.length] in *.
    intros [= <- <-]. lia. }
  destruct s as [|c r0]; [apply (H [] []); lia|].
  destruct (c =? 45); [apply (H [45] r0) | apply (H [] (c :: r0))]; cbn; lia.
Qed.

Lemma match_frac_length (s : str) :
  (List.length (snd (match_frac s)) <= List.length s)%nat.
Proof.
  unfold match_frac. destruct s as [|c r]; [cbn; lia|].
  destruct (c =? 46); [|cbn; lia].
  pose proof (span_digits_length r) as Hl.
  destruct (span_digits r) as [[|d ds] rest]; cbn [fst snd List.length] in *; lia.
Qed.

Lemma match_exp_length (s : str) :
  (List.length (snd (match_exp s)) <= List.length s)%nat.
Proof.
  unfold match_exp. destruct s as [|c r]; [cbn; lia|].
  destruct ((c =? 101) || (c =? 69)); [|cbn; lia].
  assert (H : forall sign r1, (List.length r1 <= List.length r)%nat ->
            (List.length
               (snd match span_digits r1 with
                    | ([], _) => ([], c :: r)
                    | (ds, rest) => (c :: sign ++ ds, rest)
                    end) <= List.length (c :: r))%nat).
  { intros sign r1 Hr1. pose proof (span_digits_length r1) as Hl.
    destruct (span_digits r1) as [[|d ds] rest];
      cbn [fst snd List.length] in *; lia. }
  destruct r as [|d r']; [apply (H [] []); cbn; lia|].
  destruct ((d =? 45) || (d =? 43));
    [apply (H [d] r') | apply (H [] (d :: r'))]; cbn; lia.
Qed.

Lemma match_number_length (s : str) (v : value) (r : str) :
  match_number s = Some (v, r) -> (List.length r < List.length s)%nat.
Proof.
  unfold match_number.
  destruct (match_integer s) as [[i r0]|] eqn:Hi; [|discriminate].
  pose proof (match_integer_length _ _ _ Hi) as H0.
  pose proof (match_frac_length r0) as H1.
  destruct (match_frac r0) as [frac r1].
  pose proof (match_exp_length r1) as H2.
  destruct (match_exp r1) as [exp r2]. cbn [snd] in *.
  destruct frac, exp;
    [destruct (int_max_str_digits <? decimal_digits i)%nat; [discriminate|]|..];
    intros [= <- <-]; lia.
Qed.

Lemma scan_constant_length (s : str) (v : value) (r : str) :
  scan_constant s = Some (v, r) -> (List.length r < List.length s)%nat.
Proof.
  unfold scan_constant.
  repeat match goal with
         | |- context [strip_prefix ?p s] =>
             let E := fresh "E" in
             destruct (strip_prefix p s) eqn:E;
             [apply strip_prefix_length in E; intros [= <- <-];
              rewrite E; cbn; lia|]
         | |- context [match_number s] =>
             let E := fresh "E" in
             destruct (match_number s) as [[? ?]|] eqn:E;
             [apply match_number_length in E; intros [= <- <-]; exact E|]
         end.
  discriminate.
Qed.

Lemma push_lift {A} (c : A) (o o' : option (list A * str)) (t : list A)
      (r : str) :
  push c o = Some (t, r) ->
  (forall t', o = Some (t', r) -> o' = Some (t', r)) ->
  push c o' = Some (t, r).
Proof.
  intros Hp Ho. destruct (push_some _ _ _ _ Hp) as (t' & E & ->).
  rewrite (Ho t' E). reflexivity.
Qed.

(** A scan that succeeds with some fuel consumes text, and succeeds alike
    with any fuel that is at least twice what it consumes. *)
Lemma scan_fuel (fuel : nat) :
  (forall depth s v r, scan_once fuel depth s = Some (v, r) ->
     (List.length r < List.length s)%nat /\
     forall fuel', (2 * (List.length s - List.length r) <= fuel')%nat ->
                   scan_once fuel' depth s = Some (v, r)) /\
  (forall depth s vs r, scan_elements fuel depth s = Some (vs, r) ->
     (List.length r < List.length s)%nat /\
     forall fuel', (2 * (List.length s - List.length r) - 1 <= fuel')%nat ->
                   scan_elements fuel' depth s = Some (vs, r)) /\
  (forall depth s ps r, scan_members fuel depth s = Some (ps, r) ->
     (List.length r < List.length s)%nat /\
     forall fuel', (2 * (List.length s - List.length r) - 1 <= fuel')%nat ->
                   scan_members fuel' depth s = Some (ps, r)).
Proof.
  induction fuel as [|fuel (IHo & IHe & IHm)];
    [repeat split; intros; discriminate|].
  split; [|split].
  - (* scan_once *)
    intros depth [|c r0] v r; [discriminate|]. rewrite scan_once_eq.
    destruct (c =? 34) eqn:E34.
    { destruct (scanstring r0) as [[t rest]|] eqn:Es; [|discriminate].
      intros [= <- <-]. pose proof (scanstring_length _ _ _ Es) as Hl.
      split; [cbn [List.length]; lia|]. intros [|g] Hg; [cbn [List.length] in Hg; lia|].
      rewrite scan_once_eq, E34, Es. reflexivity. }
    destruct (c =? 123) eqn:E123.
    { destruct depth as [|depth]; [discriminate|].
      pose proof (skip_ws_length r0) as Hw.
      destruct (skip_ws r0) as [|d r1] eqn:Ew; [discriminate|].
      destruct (d =? 125) eqn:E125.
      { intros [= <- <-]. cbn [List.length] in *. split; [lia|].
        intros [|g] Hg; [lia|].
        rewrite scan_once_eq, E34, E123, Ew, E125. reflexivity. }
      destruct (d =? 34) eqn:Ed; [|discriminate].
      destruct (scan_members fuel depth r1) as [[pairs rest]|] eqn:Em;
        [|discriminate].
      intros [= <- <-]. destruct (IHm _ _ _ _ Em) as [Hl Hup].
      cbn [List.length] in *. split; [lia|].
      intros [|g] Hg; [lia|].
      rewrite scan_once_eq, E34, E123, Ew, E125, Ed, (Hup g) by lia.
      reflexivity. }
    destruct (c =? 91) eqn:E91.
    { destruct depth as [|depth]; [discriminate|].
      pose proof (skip_ws_length r0) as Hw.
      destruct (skip_ws r0) as [|d r1] eqn:Ew; [discriminate|].
      destruct (d =? 93) eqn:E93.
      { intros [= <- <-]. cbn [List.length] in *. split; [lia|].
        intros [|g] Hg; [lia|].
        rewrite scan_once_eq, E34, E123, E91, Ew, E93. reflexivity. }
      destruct (scan_elements fuel depth (d :: r1)) as [[values rest]|] eqn:Ee;
        [|discriminate].
      intros [= <- <-]. destruct (IHe _ _ _ _ Ee) as [Hl Hup].
      cbn [List.length] in *. split; [lia|].
      intros [|g] Hg; [lia|].
      rewrite scan_once_eq, E34, E123, E91, Ew, E93, (Hup g) by (cbn [List.length]; lia).
      reflexivity. }
    intros Hc. pose proof (scan_constant_length _ _ _ Hc) as Hl.
    split; [exact Hl|]. intros [|g] Hg; [lia|].
    rewrite scan_once_eq, E34, E123, E91. exact Hc.
  - (* scan_elements *)
    intros depth s vs r. rewrite scan_elements_eq.
    destruct (scan_once fuel depth s) as [[v r1]|] eqn:Eo; [|discriminate].
    destruct (IHo _ _ _ _ Eo) as [Hl Hup].
    pose proof (skip_ws_length r1) as Hw.
    destruct (skip_ws r1) as [|c r2] eqn:Ew; [discriminate|].
    cbn [List.length] in Hw.
    destruct (c =? 93) eqn:E93.
    { intros [= <- <-]. split; [lia|].
      intros [|g] Hg; [lia|].
      rewrite scan_elements_eq, (Hup g), Ew, E93 by lia. reflexivity. }
    destruct (c =? 44) eqn:E44; [|discriminate].
    intros Hp. destruct (push_some _ _ _ _ Hp) as (vs' & Ee & ->).
    destruct (IHe _ _ _ _ Ee) as [Hl' Hup'].
    pose proof (skip_ws_length r2) as Hw2.
    split; [lia|]. intros [|g] Hg; [lia|].
    rewrite scan_elements_eq, (Hup g), Ew, E93, E44, (Hup' g) by lia.
    reflexivity.
  - (* scan_members *)
    intros depth s ps r. rewrite scan_members_eq.
    destruct (scanstring s) as [[key r1]|] eqn:Es; [|discriminate].
    pose proof (scanstring_length _ _ _ Es) as Hs.
    pose proof (skip_ws_length r1) as Hw1.
    destruct (skip_ws r1) as [|c r2] eqn:Ew1; [discriminate|].
    cbn [List.length] in Hw1.
    destruct (c =? 58) eqn:E58; [|discriminate].
    pose proof (skip_ws_length r2) as Hw2.
    destruct (scan_once fuel depth (skip_ws r2)) as [[v r3]|] eqn:Eo;
      [|discriminate].
    destruct (IHo _ _ _ _ Eo) as [Hl Hup].
    pose proof (skip_ws_length r3) as Hw3.
    destruct (skip_ws r3) as [|d r4] eqn:Ew3; [discriminate|].
    cbn [List.length] in Hw3.
    destruct (d =? 125) eqn:E125.
    { intros [= <- <-]. split; [lia|].
      intros [|g] Hg; [lia|].
      rewrite scan_members_eq, Es, Ew1, E58, (Hup g), Ew3, E125 by lia.
      reflexivity. }
    destruct (d =? 44) eqn:E44; [|discriminate].
    pose proof (skip_ws_length r4) as Hw4.
    destruct (skip_ws r4) as [|q r5] eqn:Ew4; [discriminate|].
    cbn [List.length] in Hw4.
    destruct (q =? 34) eqn:Eq; [|discriminate].
    intros Hp. destruct (push_some _ _ _ _ Hp) as (ps' & Em & ->).
    destruct (IHm _ _ _ _ Em) as [Hl' Hup'].
    split; [lia|]. intros [|g] Hg; [lia|].
    rewrite scan_members_eq, Es, Ew1, E58, (Hup g), Ew3, E125, E44, Ew4, Eq,
      (Hup' g) by lia.
    reflexivity.
Qed.

(** [json_loads] decides with enough fuel: a document that any amount of fuel
    scans as one value with only white space around it is decoded to that
    value. *)
Lemma json_loads_enough_fuel {interp : Interp} (fuel : nat) (s : str)
      (v : value) (r : str) :
  scan_once fuel decoder_depth (skip_ws s) = Some (v, r) -> skip_ws r = [] ->
  json_loads s = Some v.
Proof.
  intros Hs Hr. unfold json_loads.
  destruct (scan_fuel fuel) as (Ho & _ & _).
  destruct (Ho _ _ _ _ Hs) as [Hl Hup].
  pose proof (skip_ws_length s) as Hw.
  rewrite (Hup (2 * List.length s + 2)%nat) by lia.
  rewrite Hr. reflexivity.
Qed.

(** Why [text_ok] rules out a surrogate pair spelled as two code points:
    the encoder escapes each, and the decoder reads the two escapes as one
    character. *)
Lemma json_loads_merges_surrogates :
  @json_loads example_interp (@json_text example_interp None (VStr [55357; 56832]))
  = Some (VStr [128512]).
Proof. vm_compute. reflexivity. Qed.

(** ** The encoder's limits *)

Section EncoderLimits.
Context {interp : Interp}.

(** The encoder goes through when the ints are within the digit limit and
    the room is enough for the levels of the value. *)
Lemma encoder_failure_none (v : value) :
  ints_in_range v = true ->
  forall room, (encoder_levels v <= room)%nat -> encoder_failure room v = None.
Proof.
  induction v as [|b|n|l|s|items IH|items IH] using value_induction;
    intros Hi room Hroom; try reflexivity.
  - cbn [encoder_failure]. cbn [ints_in_range] in Hi.
    rewrite (within_digit_limit _ Hi). reflexivity.
  - destruct room as [|room]; [cbn [encoder_levels] in Hroom; lia | reflexivity].
  - destruct items as [|x xs]; [reflexivity|].
    cbn [encoder_levels] in Hroom.
    destruct room as [|room]; [lia|]. apply le_S_n in Hroom.
    cbn [ints_in_range] in Hi. cbn [encoder_failure].
    revert IH Hi Hroom. generalize x xs. clear x xs.
    intros x xs. revert x.
    induction xs as [|y l IHl]; intros x IH Hi Hroom;
      inversion IH as [|? ? Hx Hl]; subst;
      cbn [forallb] in Hi; apply andb_true_iff in Hi; destruct Hi as [Hix Hil];
      cbn [fold_right] in Hroom; rewrite (Hx Hix room) by lia.
    + reflexivity.
    + apply (IHl y); [exact Hl | exact Hil | cbn [fold_right]; lia].
  - destruct items as [|x xs]; [reflexivity|].
    cbn [encoder_levels] in Hroom.
    destruct room as [|room]; [lia|]. apply le_S_n in Hroom.
    cbn [ints_in_range] in Hi. cbn [encoder_failure].
    revert IH Hi Hroom. generalize x xs. clear x xs.
    intros x xs. revert x.
    induction xs as [|y l IHl]; intros x IH Hi Hroom;
      inversion IH as [|? ? Hx Hl]; subst;
      cbn [forallb] in Hi; apply andb_true_iff in Hi; destruct Hi as [Hix Hil];
      cbn [fold_right] in Hroom; rewrite (Hx Hix room) by lia.
    + reflexivity.
    + apply (IHl y); [exact Hl | exact Hil | cbn [fold_right]; lia].
Qed.

(** When the encoder goes through, the ints are within the digit limit. *)
Lemma encoder_failure_ints (v : value) :
  forall room, encoder_failure room v = None -> ints_in_range v = true.
Proof.
  induction v as [|b|n|l|s|items IH|items IH] using value_induction;
    intros room Hf; try reflexivity.
  - cbn [encoder_failure] in Hf. cbn [ints_in_range].
    destruct (int_max_str_digits <? decimal_digits (int_str n))%nat eqn:E;
      [discriminate|].
    apply Nat.leb_le. apply Nat.ltb_ge. exact E.
  - destruct items as [|x xs]; [reflexivity|].
    cbn [encoder_failure] in Hf. destruct room as [|room]; [discriminate|].
    cbn [ints_in_range].
    revert x IH Hf.
    induction xs as [|y l IHl]; intros x IH Hf;
      inversion IH as [|? ? Hx Hl]; subst;
      (destruct (encoder_failure room x) eqn:Ex; [discriminate|]);
      cbn [forallb]; rewrite (Hx room Ex).
    + reflexivity.
    + exact (IHl y Hl Hf).
  - destruct items as [|x xs]; [reflexivity|].
    cbn [encoder_failure] in Hf. destruct room as [|room]; [discriminate|].
    cbn [ints_in_range].
    revert x IH Hf.
    induction xs as [|y l IHl]; intros x IH Hf;
      inversion IH as [|? ? Hx Hl]; subst;
      (destruct (encoder_failure room (snd x)) eqn:Ex; [discriminate|]);
      cbn [forallb]; rewrite (Hx room Ex).
    + reflexivity.
    + exact (IHl y Hl Hf).
Qed.

Lemma json_dumps_returns (indent : nat) (v : value) :
  ints_in_range v = true -> (encoder_levels v <= encoder_depth)%nat ->
  json_dumps indent v = Return (json_text (Some indent) v).
Proof.
  intros Hi Hl. unfold json_dumps.
  rewrite (encoder_failure_none v Hi _ Hl). reflexivity.
Qed.

(** What [json_dumps] returns is the JSON text, and it returns only when the
    ints are within the digit limit. *)
Lemma json_dumps_inversion (indent : nat) (v : value) (t : str) :
  json_dumps indent v = Return t ->
  t = json_text (Some indent) v /\ ints_in_range v = true.
Proof.
  unfold json_dumps.
  destruct (encoder_failure encoder_depth v) eqn:E; [discriminate|].
  intros [= <-]. split; [reflexivity | exact (encoder_failure_ints v _ E)].
Qed.

End EncoderLimits.

(** ** The json module on examples

    What the decoder and the encoder of the development do on documents and
    values that the round trip does not reach, as the [json] module of
    CPython 3.11 does. *)

(** The three constants that JSON itself lacks are read as floats. *)
Example json_loads_constants :
  @json_loads example_interp
    (lit "[NaN, Infinity, -Infinity, null, true, false]")
  = Some (VList [ VFloat (lit "NaN"); VFloat (lit "Infinity");
                  VFloat (lit "-Infinity"); VNone; VBool true; VBool false ]).
Proof. vm_compute. reflexivity. Qed.

(** A number with a fraction or an exponent is a float, another one an
    int. *)
Example json_loads_numbers :
  @json_loads example_interp
    (lit "[1E5, 1e+5, -0.5, 2.50e-3, 0, -0, 12, -7]")
  = Some (VList [ VFloat (lit "1E5"); VFloat (lit "1e+5");
                  VFloat (lit "-0.5"); VFloat (lit "2.50e-3");
                  VInt 0; VInt 0; VInt 12; VInt (-7) ]).
Proof. vm_compute. reflexivity. Qed.

(** White space is skipped around the document and around its brackets,
    commas and colons. *)
Example json_loads_white_space :
  @json_loads example_interp
    ([32; 9; 10; 13] ++ lit "[ 1 , { } , [ ] ]" ++ [10])
  = Some (VList [VInt 1; VDict []; VList []]).
Proof. vm_compute. reflexivity. Qed.

(** The escapes of a string: a solidus, a code point in hexadecimal digits
    of either case, a surrogate pair, a surrogate that stands alone. *)
Example json_loads_escapes :
  @json_loads example_interp
    ([34] ++ lit "a\/\n\u00E9\uD83D\uDE00\ud83dA\uDE00" ++ [34])
  = Some (VStr [97; 47; 10; 233; 128512; 55357; 65; 56832]).
Proof. vm_compute. reflexivity. Qed.

(** Of two members with the same key the later one counts. *)
Example json_loads_duplicate_key :
  @json_loads example_interp
    (lit "{" ++ [34; 97; 34] ++ lit ": 1, " ++ [34; 97; 34] ++ lit ": 2}")
  = Some (VDict [(lit "a", VInt 2)]).
Proof. vm_compute. reflexivity. Qed.

(** Documents that are not JSON. *)
Example json_loads_malformed :
  List.map (@json_loads example_interp)
    [ lit ""; lit "-"; lit "01"; lit "-01"; lit "1."; lit "2e"; lit ".5";
      lit "+1"; lit "0x10"; lit "[1,]"; lit "[1 2]"; lit "["; lit "[]]";
      lit "{} x"; lit "{1: 2}"; lit "nul"; lit "nullx"; lit "tRue";
      [34; 10; 34]; [34; 92; 120; 34]; [34; 97];
      [34] ++ lit "\ud83d\u12" ++ [34] ]
  = repeat None 22.
Proof. vm_compute. reflexivity. Qed.

(** The digit limit is for ints: a float may have more digits. *)
Example json_loads_digit_limit :
  @json_loads example_interp (repeat 49 4301) = None /\
  @json_loads example_interp (45 :: repeat 49 4301) = None /\
  @json_loads example_interp (repeat 49 4301 ++ lit ".5")
  = Some (VFloat (repeat 49 4301 ++ lit ".5")).
Proof. repeat split; vm_compute; reflexivity. Qed.

(** The decoder of the examples has room for 991 levels, and an empty
    array takes one. *)
Example json_loads_depth :
  @json_loads example_interp (repeat 91 991 ++ repeat 93 991)
  = Some (nested_lists 990 (VList [])) /\
  @json_loads example_interp (repeat 91 992 ++ repeat 93 992) = None /\
  @json_loads example_interp (repeat 91 991 ++ lit "1.5" ++ repeat 93 991)
  = Some (nested_lists 991 (VFloat (lit "1.5"))).
Proof. repeat split; vm_compute; reflexivity. Qed.

(** The layout of [json.dumps]: with an indent every item is on a line of
    its own, without one the items follow each other; an empty list or dict
    is written in one piece. *)
Example json_text_layout :
  let v := VDict [ (lit "a", VList [VInt 1; VNone]); (lit "b", VDict []);
                   (lit "c", VList []) ] in
  @json_text example_interp (Some 4%nat) v
  = lit "{" ++ [10]
    ++ lit "    " ++ [34; 97; 34] ++ lit ": [" ++ [10]
    ++ lit "        1," ++ [10]
    ++ lit "        null" ++ [10]
    ++ lit "    ]," ++ [10]
    ++ lit "    " ++ [34; 98; 34] ++ lit ": {}," ++ [10]
    ++ lit "    " ++ [34; 99; 34] ++ lit ": []" ++ [10]
    ++ lit "}" /\
  @json_text example_interp None v
  = lit "{" ++ [34; 97; 34] ++ lit ": [1, null], " ++ [34; 98; 34]
    ++ lit ": {}, " ++ [34; 99; 34] ++ lit ": []}".
Proof. split; vm_compute; reflexivity. Qed.

(** The escapes the encoder writes, and the three floats that JSON lacks. *)
Example json_text_escapes :
  @json_text example_interp None
    (VStr [120; 233; 10; 34; 92; 47; 127; 128512; 55357])
  = [34] ++ lit "x\u00e9\n" ++ [92; 34; 92; 92]
    ++ lit "/\u007f\ud83d\ude00\ud83d" ++ [34] /\
  @json_text example_interp None
    (VList [ VFloat (lit "nan"); VFloat (lit "inf"); VFloat (lit "-inf");
             VFloat (lit "1e+22") ])
  = lit "[NaN, Infinity, -Infinity, 1e+22]".
Proof. split; vm_compute; reflexivity. Qed.

(** The encoder of the examples has room for 992 levels: lists that are not
    empty take one each, a float one more, an empty list none. *)
Example json_dumps_depth :
  @json_dumps example_interp 4%nat (nested_lists 992 VNone)
  = Return (@json_text example_interp (Some 4%nat) (nested_lists 992 VNone)) /\
  @json_dumps example_interp 4%nat (nested_lists 992 (VList []))
  = Return (@json_text example_interp (Some 4%nat)
              (nested_lists 992 (VList []))) /\
  @json_dumps example_interp 4%nat (nested_lists 991 (VFloat (lit "1.5")))
  = Return (@json_text example_interp (Some 4%nat)
              (nested_lists 991 (VFloat (lit "1.5")))) /\
  @json_dumps example_interp 4%nat (nested_lists 993 VNone)
  = Raise (Exn RecursionError (@recursion_error_text example_interp)) /\
  @json_dumps example_interp 4%nat (nested_lists 992 (VFloat (lit "1.5")))
  = Raise (Exn RecursionError (@recursion_error_text example_interp)).
Proof.
  unfold json_dumps.
  change (@encoder_depth example_interp) with 992%nat.
  repeat split;
    match goal with
    | |- match ?f with _ => _ end = _ =>
        let r := eval vm_compute in f in
        change f with r; reflexivity
    end.
Qed.

(** ** The formatter, the decoded body and the script *)

Section Formatter.
Context {interp : Interp}.

(** The summary of JSON-compatible data is JSON-compatible. *)
Lemma weather_summary_compatible (data summary : value) :
  json_compatible data = true ->
  extract_weather_info data = Return summary ->
  json_compatible summary = true.
Proof.
  intros Hc. unfold extract_weather_info, getitem2, getitem, bind_o.
  assert (Hget : forall d k x,
             forallb (fun kv => text_ok (fst kv) && json_compatible (snd kv)) d
             = true ->
             dict_get d k = Some x -> json_compatible x = true).
  { induction d as [|[k' v'] d IH]; cbn [dict_get forallb fst snd];
      intros k x Hd; [discriminate|].
    apply andb_true_iff in Hd. destruct Hd as [Hkv Hd].
    apply andb_true_iff in Hkv.
    destruct (str_eqb k k'); [intros [= <-]; tauto | eauto]. }
  destruct data as [| | | | | |d]; try discriminate.
  cbn [json_compatible] in Hc. apply andb_true_iff in Hc. destruct Hc as [_ Hd].
  destruct (dict_get d (lit "location")) as [vl|] eqn:El; [|discriminate].
  pose proof (Hget _ _ _ Hd El) as Hl.
  destruct vl as [| | | | | |loc]; try discriminate.
  cbn [json_compatible] in Hl. apply andb_true_iff in Hl. destruct Hl as [_ Hl].
  destruct (dict_get loc (lit "name")) eqn:E1; [|discriminate].
  destruct (dict_get loc (lit "region")) eqn:E2; [|discriminate].
  destruct (dict_get loc (lit "localtime")) eqn:E3; [|discriminate].
  destruct (dict_get d (lit "current")) as [vc|] eqn:Ec; [|discriminate].
  pose proof (Hget _ _ _ Hd Ec) as Hcur.
  destruct vc as [| | | | | |cur]; try discriminate.
  cbn [json_compatible] in Hcur. apply andb_true_iff in Hcur.
  destruct Hcur as [_ Hcur].
  destruct (dict_get cur (lit "temperature")) eqn:E4; [|discriminate].
  destruct (dict_get cur (lit "feelslike")) eqn:E5; [|discriminate].
  intros [= <-]. cbn [json_compatible forallb fst snd].
  rewrite (Hget _ _ _ Hl E1), (Hget _ _ _ Hl E2), (Hget _ _ _ Hl E3),
    (Hget _ _ _ Hcur E4), (Hget _ _ _ Hcur E5).
  reflexivity.
Qed.

(** C7, as amended.  For every mapping built from the values of JSON (None,
    bools, ints, finite floats, texts of Unicode characters, lists and dicts
    with str keys) whose ints have at most 4300 digits and which nests no
    deeper than the encoder and the decoder have room for,
    [inspect_response] returns a text and does not raise, the JSON text of
    the mapping with an indent of four, and decoding the text gives the
    mapping back.  [inspect_response] is a function of its argument alone: it
    reads and changes nothing. *)
Theorem inspect_response_round_trip (weather_response : value) :
  json_compatible weather_response = true ->
  ints_in_range weather_response = true ->
  (encoder_levels weather_response <= encoder_depth)%nat ->
  (nesting weather_response <= decoder_depth)%nat ->
  exists shown,
    inspect_response weather_response = Return shown /\
    shown = json_text (Some 4%nat) weather_response /\
    json_loads shown = Some weather_response.
Proof.
  intros Hc Hi He Hd. exists (json_text (Some 4%nat) weather_response).
  split; [|split].
  - unfold inspect_response. apply json_dumps_returns; assumption.
  - reflexivity.
  - apply json_loads_text; assumption.
Qed.


(** A call that returns anything but the empty mapping has printed nothing. *)
Lemma search_weather_quiet (loc : str) (w w1 : World) (v : value) :
  search_weather (VStr loc) w = (Return v, w1) ->
  v <> VDict [] ->
  printed w1 = printed w.
Proof.
  destruct (search_weather_str loc w) as (w0 & Hl & Hn & Hlog & Hsw).
  rewrite Hsw, fetch_of_attempt.
  pose proof (attempt_log (request_url (VStr loc) (credential w)) w0) as Ha.
  destruct (attempt _ w0) as [[v'|e] w']; cbn [snd] in Ha; subst w'.
  - intros [= <- <-] _. rewrite printed_record, List.app_nil_r.
    unfold printed. rewrite Hlog, flat_map_app. apply List.app_nil_r.
  - destruct (is_HTTPError (exn_class_of e)); [intros [= <- <-]; congruence|].
    destruct (is_Exception (exn_class_of e)); [intros [= <- <-]; congruence|].
    discriminate.
Qed.

(** C6.  When the fetch returns the raw mapping of the scenario, the script
    prints two texts, the indented JSON of the raw mapping and then exactly
    the sentence. *)
Theorem script_prints_sentence (w w1 : World) :
  search_weather (VStr (lit "Athens")) w = (Return athens_raw, w1) ->
  exists w2 shown,
    script w = (Return tt, w2) /\
    inspect_response athens_raw = Return shown /\
    shown = json_text (Some 4%nat) athens_raw /\
    printed w2 =
      printed w
      ++ [ shown;
           lit "The temperature in Athens is 20 degrees Celcius and feels like 19 degrees." ].
Proof.
  intros Hsw.
  pose proof (search_weather_quiet _ _ _ _ Hsw ltac:(discriminate)) as Hq.
  assert (Hshown : inspect_response athens_raw
                   = Return (json_text (Some 4%nat) athens_raw)).
  { unfold inspect_response. apply json_dumps_returns; [reflexivity|].
    unfold encoder_depth. cbn [encoder_levels athens_raw fold_right snd Nat.max].
    lia. }
  unfold script, bind. rewrite Hsw. unfold lift at 1. rewrite Hshown.
  eexists _, _. split; [reflexivity|]. split; [reflexivity|].
  split; [reflexivity|].
  cbn [lift fst snd print]. rewrite !printed_record, Hq, <- List.app_assoc.
  reflexivity.
Qed.

End Formatter.

(** Concrete runs. *)

Lemma inspect_response_round_trip_witness :
  exists shown,
    @inspect_response example_interp athens_summary = Return shown /\
    shown = @json_text example_interp (Some 4%nat) athens_summary /\
    @json_loads example_interp shown = Some athens_summary.
Proof.
  apply (@inspect_response_round_trip example_interp athens_summary);
    [reflexivity | reflexivity | vm_compute; lia | vm_compute; lia].
Defined.

(** A one and [n] zeros is the numeral of 10 ** n. *)
Lemma one_and_zeros (n : nat) :
  Z.of_int (Pos (D1 (zeros n))) = (10 ^ Z.of_nat n)%Z.
Proof.
  assert (H : forall acc, Pos.of_uint_acc (zeros n) acc
                          = Z.to_pos (Zpos acc * 10 ^ Z.of_nat n)).
  { induction n as [|n IH]; intros acc.
    - cbn [zeros Pos.of_uint_acc]. rewrite Z.pow_0_r, Z.mul_1_r. reflexivity.
    - cbn [zeros Pos.of_uint_acc]. rewrite (IH (10 * acc)%positive).
      rewrite Nat2Z.inj_succ, Z.pow_succ_r by lia. f_equal. lia. }
  cbn [Z.of_int]. unfold Z.of_uint. cbn [Pos.of_uint]. rewrite H.
  pose proof (Z.pow_pos_nonneg 10 (Z.of_nat n) ltac:(lia) ltac:(lia)) as Hp.
  destruct (10 ^ Z.of_nat n)%Z eqn:E; lia.
Qed.

Lemma ten_to_4300_value : ten_to_4300 = (10 ^ Z.of_nat 4300)%Z.
Proof. exact (one_and_zeros 4300). Qed.

Lemma ten_to_4300_numeral : int_str ten_to_4300 = uint_str (D1 (zeros 4300)).
Proof.
  unfold int_str, ten_to_4300. rewrite DecimalZ.to_of. reflexivity.
Qed.

(** C7, as stated, fails in three ways.  An int of 4301 digits is a value of
    JSON, and [inspect_response] raises the ValueError of the digit limit on
    a mapping that holds it.  On a mapping that nests 993 levels it raises
    RecursionError, under the default recursion limit.  The text of two code
    points, a high surrogate and a low one, is written with two escapes,
    which the decoder reads as one character: what is read back is not the
    mapping that was written. *)
Lemma inspect_response_round_trip_counterexample :
  (long_int_mapping = VDict [(lit "n", VInt (10 ^ Z.of_nat 4300))] /\
   @json_compatible example_interp long_int_mapping = true /\
   @inspect_response example_interp long_int_mapping = Raise int_repr_error /\
   exn_class_of int_repr_error = ValueError) /\
  (@json_compatible example_interp deep_mapping = true /\
   @inspect_response example_interp deep_mapping
   = Raise (Exn RecursionError
              (lit "maximum recursion depth exceeded while calling a Python object"))) /\
  (exists shown,
     @inspect_response example_interp surrogate_mapping = Return shown /\
     @json_loads example_interp shown = Some astral_mapping /\
     astral_mapping <> surrogate_mapping).
Proof.
  split; [|split].
  - split; [unfold long_int_mapping; rewrite ten_to_4300_value; reflexivity|].
    split; [reflexivity|]. split; [|reflexivity].
    unfold inspect_response, json_dumps, long_int_mapping.
    change (@encoder_depth example_interp) with (S 991).
    cbn [encoder_failure snd]. rewrite ten_to_4300_numeral.
    assert (E : (int_max_str_digits
                 <? decimal_digits (uint_str (D1 (zeros 4300))))%nat = true)
      by (vm_compute; reflexivity).
    rewrite E. reflexivity.
  - split; [vm_compute; reflexivity|].
    unfold inspect_response, json_dumps.
    change (@encoder_depth example_interp) with 992%nat.
    match goal with
    | |- match ?f with _ => _ end = _ =>
        let r := eval vm_compute in f in change f with r
    end.
    reflexivity.
  - eexists. split; [vm_compute; reflexivity|].
    split; [vm_compute; reflexivity | discriminate].
Qed.



Lemma script_prints_sentence_witness :
  printed (snd (@script example_interp world_200))
  = [ @json_text example_interp (Some 4%nat) athens_raw;
      lit "The temperature in Athens is 20 degrees Celcius and feels like 19 degrees." ].
Proof.
  destruct (@script_prints_sentence example_interp world_200
              (record (HttpGet (@request_url example_interp
                                  (VStr (lit "Athens")) (credential world_200)))
                 (snd (load_environment world_200)))
              eq_refl) as (w2 & shown & Hs & _ & -> & Hp).
  rewrite Hs. exact Hp.
Defined.

(** * Further properties *)

(** ** The credential loader, further *)

Lemma load_environment_state (w : World) :
  snd (load_environment w) =
  record (Getenv (lit "WEATHER_API"))
    (record LoadDotenv
       (with_environ
          (fold_left add_binding (dotenv_dict (dotenv w)) (environ w)) w)).
Proof. reflexivity. Qed.

Lemma load_environment_value (w : World) :
  fst (load_environment w) =
  Return match env_get (environ w) (lit "WEATHER_API") with
         | Some v => VStr v
         | None =>
             match dotenv_value (dotenv w) (lit "WEATHER_API") with
             | Some v => VStr v
             | None => VNone
             end
         end.
Proof.
  unfold load_environment, bind, load_dotenv, os_getenv, ret.
  cbn [fst snd environ record with_environ]. rewrite env_get_load.
  destruct (env_get (environ w) (lit "WEATHER_API")); [reflexivity|].
  destruct (dotenv_value (dotenv w) (lit "WEATHER_API")); reflexivity.
Qed.

Lemma load_environment_environ (w : World) (name : str) :
  env_get (environ (snd (load_environment w))) name =
  match env_get (environ w) name with
  | Some v => Some v
  | None => dotenv_value (dotenv w) name
  end.
Proof.
  rewrite load_environment_state. cbn [environ record with_environ].
  apply env_get_load.
Qed.

(** X1.  [load_environment] returns the value WEATHER_API has in the
    environment of the process when it is set there, whatever the [.env]
    file says; otherwise the value that the last binding of WEATHER_API in
    the [.env] file gives it; and None when there is no such binding or the
    last one has no value. *)
Theorem load_environment_precedence (w : World) :
  fst (load_environment w) =
  Return match env_get (environ w) (lit "WEATHER_API") with
         | Some v => VStr v
         | None =>
             match dotenv_value (dotenv w) (lit "WEATHER_API") with
             | Some v => VStr v
             | None => VNone
             end
         end.
Proof. exact (load_environment_value w). Qed.

(** X2.  [load_environment] only adds to the environment: after it, every
    variable has the value it had when it was set, and otherwise the value
    that its last binding in the [.env] file gives it, if any. *)
Theorem load_environment_adds (w : World) (name : str) :
  env_get (environ (snd (load_environment w))) name =
    match env_get (environ w) name with
    | Some v => Some v
    | None => dotenv_value (dotenv w) name
    end.
Proof. exact (load_environment_environ w name). Qed.

Lemma load_fixed (d : list (str * option str)) (env : list (str * str)) :
  (forall k v, In (k, Some v) d -> env_get env k <> None) ->
  fold_left add_binding d env = env.
Proof.
  revert env. induction d as [|[k o] d IH]; intros env H.
  - reflexivity.
  - cbn [fold_left].
    assert (E : add_binding env (k, o) = env).
    { unfold add_binding. cbn [fst snd]. destruct o as [v|].
      - specialize (H k v (or_introl eq_refl)).
        destruct (env_get env k); [reflexivity | congruence].
      - destruct (env_get env k); reflexivity. }
    rewrite E. apply IH. intros k' v' Hin. apply (H k' v'). right; exact Hin.
Qed.

(** X3.  Loading twice changes nothing more: a second [load_environment]
    returns the same key and leaves the environment as the first one left
    it. *)
Theorem load_environment_idempotent (w : World) :
  let w1 := snd (load_environment w) in
  fst (load_environment w1) = fst (load_environment w) /\
  environ (snd (load_environment w1)) = environ w1.
Proof.
  intros w1.
  assert (Hfix : fold_left add_binding (dotenv_dict (dotenv w1)) (environ w1)
                 = environ w1).
  { apply load_fixed. intros k v Hin. unfold w1.
    rewrite (load_environment_environ w k).
    change (dotenv w1) with (dotenv w) in Hin.
    destruct (env_get (environ w) k); [discriminate|].
    rewrite <- binding_get_dotenv_dict.
    rewrite (binding_get_in _ _ _ (dotenv_dict_NoDup (dotenv w)) Hin).
    discriminate. }
  split.
  - rewrite !load_environment_value.
    unfold w1 at 1.
    rewrite (load_environment_environ w (lit "WEATHER_API")).
    assert (Hd : dotenv w1 = dotenv w) by reflexivity. rewrite Hd.
    destruct (env_get (environ w) (lit "WEATHER_API")) as [v|]; [reflexivity|].
    destruct (dotenv_value (dotenv w) (lit "WEATHER_API")); reflexivity.
  - rewrite load_environment_state.
    cbn [environ record with_environ]. exact Hfix.
Qed.

(** ** The fetch, further *)

Section FetchEffects.
Context {interp : Interp}.

(** What a fetch leaves behind: the GET in the log, then at most one
    printed text; the environment, the [.env] bindings and the network are
    untouched. *)
Lemma fetch_effects (URL : str) (w : World) :
  exists tail,
    log (snd (fetch URL w)) = log w ++ HttpGet URL :: tail /\
    (tail = [] \/ exists t, tail = [Stdout t]) /\
    environ (snd (fetch URL w)) = environ w /\
    dotenv (snd (fetch URL w)) = dotenv w /\
    network (snd (fetch URL w)) = network w.
Proof.
  rewrite fetch_of_attempt.
  pose proof (attempt_log URL w) as Ha.
  destruct (attempt URL w) as [[v|e] w']; cbn [snd] in Ha; subst w'.
  - exists []. cbn [snd]. repeat split; auto.
  - destruct (is_HTTPError (exn_class_of e)).
    + eexists [_]. cbn [snd record log environ dotenv network].
      rewrite <- List.app_assoc. repeat split; eauto.
    + destruct (is_Exception (exn_class_of e)).
      * eexists [_]. cbn [snd record log environ dotenv network].
        rewrite <- List.app_assoc. repeat split; eauto.
      * exists []. cbn [snd]. repeat split; auto.
Qed.

Lemma search_weather_effects (loc : str) (w : World) :
  exists tail,
    log (snd (search_weather (VStr loc) w)) =
      log w ++ [LoadDotenv; Getenv (lit "WEATHER_API");
                HttpGet (url_for loc w)] ++ tail /\
    (tail = [] \/ exists t, tail = [Stdout t]) /\
    environ (snd (search_weather (VStr loc) w))
      = environ (snd (load_environment w)) /\
    dotenv (snd (search_weather (VStr loc) w)) = dotenv w /\
    network (snd (search_weather (VStr loc) w)) = network w.
Proof.
  destruct (search_weather_str loc w) as (w1 & Hl & Hn & Hlog & Hsw).
  rewrite Hsw, Hl. cbn [snd].
  destruct (fetch_effects (request_url (VStr loc) (credential w)) w1)
    as (tail & Hf & Ht & He & Hd & Hnet).
  exists tail. rewrite Hf, Hlog, He, Hd, Hnet, Hn, <- List.app_assoc.
  repeat split; auto.
  pose proof (f_equal snd Hl) as Hw1. cbn [snd] in Hw1. rewrite <- Hw1.
  reflexivity.
Qed.

Lemma search_weather_requested (location : value) (w : World) :
  requested (snd (search_weather location w)) =
  requested w
  ++ (if isinstance_str location
      then [request_url location (credential w)] else []).
Proof.
  destruct (isinstance_str location) eqn:Hs.
  - destruct location; try discriminate.
    destruct (search_weather_effects s w) as (tail & Hlog & Ht & _).
    unfold requested. rewrite Hlog, !flat_map_app.
    destruct Ht as [-> | (t & ->)]; reflexivity.
  - unfold search_weather. rewrite Hs. cbn. symmetry. apply List.app_nil_r.
Qed.

(** X4.  A call with a str argument issues exactly one GET, whatever comes
    of it, and for the URL that carries the argument and the key as they
    are; a call with another argument issues none. *)
Theorem search_weather_one_request (location : value) (w : World) :
  requested (snd (search_weather location w)) =
  requested w
  ++ (if isinstance_str location
      then [request_url location (credential w)] else []).
Proof. exact (search_weather_requested location w). Qed.

Lemma search_weather_raises (location : value) (w : World) (e : exn) :
  fst (search_weather location w) = Raise e ->
  (isinstance_str location = false /\
   e = Exn TypeError (lit "Input must be a string.")) \/
  (isinstance_str location = true /\
   network w (request_url location (credential w)) = Fails e /\
   is_Exception (exn_class_of e) = false).
Proof.
  destruct (isinstance_str location) eqn:Hs.
  - destruct location; try discriminate.
    destruct (search_weather_str s w) as (w1 & Hl & Hn & Hlog & Hsw).
    rewrite Hsw, fetch_of_attempt.
    pose proof (attempt_raises (request_url (VStr s) (credential w)) w1) as Har.
    destruct (attempt _ w1) as [[v|e'] w']; [discriminate|].
    destruct (is_HTTPError (exn_class_of e')) eqn:Eh; [discriminate|].
    destruct (is_Exception (exn_class_of e')) eqn:Ee; [discriminate|].
    cbn [fst]. intros [= <-]. right. split; [reflexivity|]. split; [|exact Ee].
    destruct (Har e' eq_refl) as [Hf|(r & _ & Hc)].
    + rewrite <- Hn. exact Hf.
    + rewrite Hc in Ee. discriminate.
  - unfold search_weather. rewrite Hs. cbn [negb fst raise].
    intros [= <-]. left. split; reflexivity.
Qed.

(** X5.  [search_weather] raises in two cases only: the TypeError of line 40
    for an argument that is not a str, and, for a str, an exception that the
    request itself raised and that does not derive from [Exception]. *)
Theorem search_weather_raises_only (location : value) (w : World) (e : exn) :
  fst (search_weather location w) = Raise e ->
  (isinstance_str location = false /\
   e = Exn TypeError (lit "Input must be a string.")) \/
  (isinstance_str location = true /\
   network w (request_url location (credential w)) = Fails e /\
   is_Exception (exn_class_of e) = false).
Proof. exact (search_weather_raises location w e). Qed.

(** X6.  What [search_weather] does with a response.  A status of 400 to 499
    or of 500 to 599 gives the empty mapping and one printed text, the HTTP
    diagnostic with the status, the reason and the URL of the response,
    whether or not the body decodes.  Any other status gives the decoded
    body and prints nothing, or, when the body does not decode, the empty
    mapping and the other diagnostic. *)
Theorem search_weather_on_response (loc : str) (w : World) (r : Response) :
  network w (url_for loc w) = Responds r ->
  let client := ((400 <=? status_code r) && (status_code r <? 500))%Z in
  let server := ((500 <=? status_code r) && (status_code r <? 600))%Z in
  let said kind :=
    lit "HTTP error occurred: " ++ int_str (status_code r) ++ kind
    ++ reason r ++ lit " for url: " ++ url r in
  fst (search_weather (VStr loc) w) =
    Return (if client || server then VDict []
            else match json_loads (text r) with
                 | Some v => v
                 | None => VDict []
                 end) /\
  printed (snd (search_weather (VStr loc) w)) =
    printed w
    ++ (if client then [said (lit " Client Error: ")]
        else if server then [said (lit " Server Error: ")]
        else match json_loads (text r) with
             | Some _ => []
             | None => [lit "Other error occurred: " ++ json_error_text (text r)]
             end).
Proof.
  intros Hr client server said.
  destruct (search_weather_str loc w) as (w1 & Hl & Hn & Hlog & Hsw).
  unfold url_for in Hr. rewrite <- Hn in Hr.
  assert (Hp : printed (record (HttpGet (request_url (VStr loc) (credential w))) w1)
               = printed w).
  { rewrite printed_record, List.app_nil_r. unfold printed.
    rewrite Hlog, flat_map_app. apply List.app_nil_r. }
  rewrite Hsw, fetch_of_attempt.
  unfold attempt, bind, requests_get, raise_for_status, response_json,
    raise, ret, print.
  rewrite Hr. fold client server.
  destruct client.
  { cbn [exn_class_of is_HTTPError fst snd exn_text orb].
    rewrite printed_record, Hp. split; reflexivity. }
  destruct server.
  { cbn [exn_class_of is_HTTPError fst snd exn_text orb].
    rewrite printed_record, Hp. split; reflexivity. }
  destruct (json_loads (text r)).
  - cbn [fst snd orb]. rewrite Hp, List.app_nil_r. split; reflexivity.
  - cbn [exn_class_of exn_text].
    destruct (decode_error_caught (json_error_kind (text r))) as [-> ->].
    cbn [fst snd orb]. rewrite printed_record, Hp. split; reflexivity.
Qed.

(** X7.  What [search_weather] does when the request itself raises.  An
    exception that derives from [Exception] gives the empty mapping and one
    printed text, with the HTTP wording for an HTTPError and the other
    wording otherwise.  Any other exception passes through, and nothing is
    printed. *)
Theorem search_weather_on_request_error (loc : str) (w : World) (e : exn) :
  network w (url_for loc w) = Fails e ->
  fst (search_weather (VStr loc) w) =
    (if is_Exception (exn_class_of e) then Return (VDict []) else Raise e) /\
  printed (snd (search_weather (VStr loc) w)) =
    printed w ++ (if is_Exception (exn_class_of e) then [diagnostic e] else []).
Proof.
  intros Hr.
  destruct (search_weather_str loc w) as (w1 & Hl & Hn & Hlog & Hsw).
  unfold url_for in Hr. rewrite <- Hn in Hr.
  assert (Hp : printed (record (HttpGet (request_url (VStr loc) (credential w))) w1)
               = printed w).
  { rewrite printed_record, List.app_nil_r. unfold printed.
    rewrite Hlog, flat_map_app. apply List.app_nil_r. }
  rewrite Hsw, fetch_of_attempt.
  unfold attempt, bind, requests_get, raise, ret, print. rewrite Hr.
  unfold diagnostic.
  destruct (is_HTTPError (exn_class_of e)) eqn:Eh.
  - assert (Ee : is_Exception (exn_class_of e) = true)
      by (destruct (exn_class_of e); try discriminate; reflexivity).
    rewrite Ee. cbn [fst snd]. rewrite printed_record, Hp. split; reflexivity.
  - destruct (is_Exception (exn_class_of e)); cbn [fst snd].
    + rewrite printed_record, Hp. split; reflexivity.
    + rewrite Hp, List.app_nil_r. split; reflexivity.
Qed.

(** X9.  Nothing is cached: a second call for the same place does not
    reuse the response of the first, it issues the same GET again. *)
Theorem search_weather_refetches (loc : str) (w : World) :
  let first := search_weather (VStr loc) w in
  let second := search_weather (VStr loc) (snd first) in
  requested (snd second) = requested w ++ [url_for loc w; url_for loc w].
Proof.
  intros first second.
  destruct (search_weather_effects loc w) as (tail & Hlog & Ht & He & Hd & Hn).
  fold first in Hlog, He, Hd, Hn.
  assert (Hc : credential (snd first) = credential w).
  { unfold credential. rewrite !load_environment_value.
    rewrite He, Hd, (load_environment_environ w (lit "WEATHER_API")).
    destruct (env_get (environ w) (lit "WEATHER_API")); [reflexivity|].
    destruct (dotenv_value (dotenv w) (lit "WEATHER_API")); reflexivity. }
  unfold second. rewrite search_weather_requested.
  cbn [isinstance_str]. fold (url_for loc (snd first)).
  unfold url_for at 1. rewrite Hc. fold (url_for loc w).
  unfold first. rewrite search_weather_requested. cbn [isinstance_str].
  fold (url_for loc w). rewrite <- List.app_assoc. reflexivity.
Qed.

End FetchEffects.

(** ** The extractor and the script, further *)

Section ScriptRuns.
Context {interp : Interp}.

Lemma extract_weather_info_inversion (data v : value) :
  extract_weather_info data = Return v ->
  exists name region local_time temperature feels_like,
    source_field data (lit "location") (lit "name") = Some name /\
    source_field data (lit "location") (lit "region") = Some region /\
    source_field data (lit "location") (lit "localtime") = Some local_time /\
    source_field data (lit "current") (lit "temperature") = Some temperature /\
    source_field data (lit "current") (lit "feelslike") = Some feels_like /\
    v = VDict [ (lit "name", name);
                (lit "region", region);
                (lit "local_time", local_time);
                (lit "temperature", temperature);
                (lit "feels_like", feels_like) ].
Proof.
  unfold extract_weather_info, getitem2, getitem, bind_o, source_field.
  destruct data as [| | | | | |d]; try discriminate.
  destruct (dict_get d (lit "location")) as [vl|]; [|discriminate].
  destruct vl as [| | | | | |loc]; try discriminate.
  destruct (dict_get loc (lit "name")) as [a|]; [|discriminate].
  destruct (dict_get loc (lit "region")) as [b|]; [|discriminate].
  destruct (dict_get loc (lit "localtime")) as [c|]; [|discriminate].
  destruct (dict_get d (lit "current")) as [vc|]; [|discriminate].
  destruct vc as [| | | | | |cur]; try discriminate.
  destruct (dict_get cur (lit "temperature")) as [t|]; [|discriminate].
  destruct (dict_get cur (lit "feelslike")) as [f|]; [|discriminate].
  intros [= <-]. exists a, b, c, t, f. repeat split; reflexivity.
Qed.

(** X10.  Whenever the extractor returns, its argument has the five source
    fields and the result is the mapping of exactly the five keys name,
    region, local_time, temperature and feels_like, in this order, to the
    values of the fields. *)
Theorem extract_weather_info_returns (data v : value) :
  extract_weather_info data = Return v ->
  exists name region local_time temperature feels_like,
    source_field data (lit "location") (lit "name") = Some name /\
    source_field data (lit "location") (lit "region") = Some region /\
    source_field data (lit "location") (lit "localtime") = Some local_time /\
    source_field data (lit "current") (lit "temperature") = Some temperature /\
    source_field data (lit "current") (lit "feelslike") = Some feels_like /\
    v = VDict [ (lit "name", name);
                (lit "region", region);
                (lit "local_time", local_time);
                (lit "temperature", temperature);
                (lit "feels_like", feels_like) ].
Proof. exact (extract_weather_info_inversion data v). Qed.

Lemma script_of_search (w : World) :
  script w =
  match search_weather (VStr (lit "Athens")) w with
  | (Return data, w1) =>
      match inspect_response data with
      | Return shown =>
          let w2 := record (Stdout shown) w1 in
          match extract_weather_info data with
          | Return summary =>
              match sentence summary with
              | Return line => (Return tt, record (Stdout line) w2)
              | Raise e => (Raise e, w2)
              end
          | Raise e => (Raise e, w2)
          end
      | Raise e => (Raise e, w1)
      end
  | (Raise e, w1) => (Raise e, w1)
  end.
Proof.
  unfold script, bind, print, lift.
  destruct (search_weather (VStr (lit "Athens")) w) as [[data|e] w1];
    [|reflexivity].
  destruct (inspect_response data) as [shown|e]; [|reflexivity].
  destruct (extract_weather_info data) as [summary|e]; [|reflexivity].
  destruct (sentence summary); reflexivity.
Qed.

(** X12.  When the extractor raises on what the fetch returned, the script
    has printed the indented JSON of it and nothing after: it ends with the
    extractor's exception, and the sentence is never printed.  When
    [inspect_response] itself raises on what the fetch returned, the script
    ends with that exception before it prints anything. *)
Theorem script_stops_at_extractor (w w1 : World) (data : value) (e : exn) :
  search_weather (VStr (lit "Athens")) w = (Return data, w1) ->
  extract_weather_info data = Raise e ->
  script w =
  match inspect_response data with
  | Return shown => (Raise e, record (Stdout shown) w1)
  | Raise e' => (Raise e', w1)
  end.
Proof.
  intros Hsw He. rewrite script_of_search, Hsw.
  destruct (inspect_response data); [|reflexivity].
  cbv zeta. rewrite He. reflexivity.
Qed.

(** X13.  After a fetch that fails in a way the handlers catch, the script
    prints the diagnostic, then the text of the empty mapping, and ends with
    the KeyError of the key location. *)
Theorem script_after_failed_fetch (w : World) :
  fetch_fails w (url_for (lit "Athens") w) = true ->
  exists e,
    fst (attempt (url_for (lit "Athens") w) (snd (load_environment w)))
      = Raise e /\
    fst (script w) = Raise (Exn KeyError (str_repr (lit "location"))) /\
    printed (snd (script w)) = printed w ++ [diagnostic e; lit "{}"].
Proof.
  intros Hf.
  destruct (search_weather_str (lit "Athens") w) as (w1 & Hl & Hn & Hlog & Hsw).
  unfold fetch_fails, url_for in *. rewrite <- Hn in Hf.
  destruct (attempt_of_fetch_fails _ w1 Hf) as (e & Ha & He).
  exists e. rewrite Hl. cbn [snd]. rewrite Ha. split; [reflexivity|].
  assert (Hp : printed (record (HttpGet (request_url (VStr (lit "Athens"))
                                           (credential w))) w1) = printed w).
  { rewrite printed_record, List.app_nil_r. unfold printed.
    rewrite Hlog, flat_map_app. apply List.app_nil_r. }
  assert (Hext : extract_weather_info (VDict [])
                 = Raise (Exn KeyError (str_repr (lit "location"))))
    by reflexivity.
  assert (Hins : inspect_response (VDict []) = Return (lit "{}"))
    by reflexivity.
  rewrite script_of_search, Hsw, fetch_of_attempt, Ha. unfold diagnostic.
  destruct (is_HTTPError (exn_class_of e)); [|rewrite He];
    cbv beta iota zeta; rewrite Hins, Hext; cbv beta iota zeta; cbn [fst snd];
    do 2 rewrite printed_record; rewrite Hp, <- List.app_assoc;
    split; reflexivity.
Qed.

(** X14.  The script asks for one place only: whatever happens, it issues
    exactly one GET, for Athens. *)
Theorem script_one_request (w : World) :
  requested (snd (script w)) = requested w ++ [url_for (lit "Athens") w].
Proof.
  pose proof (search_weather_requested (VStr (lit "Athens")) w) as Hr.
  cbn [isinstance_str] in Hr. fold (url_for (lit "Athens") w) in Hr.
  rewrite script_of_search.
  destruct (search_weather (VStr (lit "Athens")) w) as [[data|e] w1];
    cbn [snd] in Hr; [|exact Hr].
  destruct (inspect_response data) as [shown|e]; [|exact Hr].
  cbv zeta.
  destruct (extract_weather_info data) as [summary|e];
    [destruct (sentence summary)|]; cbn [snd];
    rewrite ?requested_record, ?List.app_nil_r; exact Hr.
Qed.

End ScriptRuns.

(** ** The formatter, further *)

Lemma ascii_only_app (a b : str) :
  ascii_only (a ++ b) = ascii_only a && ascii_only b.
Proof. apply forallb_app. Qed.

Lemma ascii_only_uint_str (d : Decimal.uint) : ascii_only (uint_str d) = true.
Proof. induction d; cbn [uint_str]; [reflexivity | exact IHd ..]. Qed.

Lemma ascii_only_int_str (n : Z) : ascii_only (int_str n) = true.
Proof.
  unfold int_str. destruct (Z.to_int n); [|cbn [ascii_only forallb]];
    apply ascii_only_uint_str.
Qed.

Lemma hex_digit_ascii (n : N) : (hex_digit (n mod 16) <? 128) = true.
Proof.
  pose proof (N.mod_upper_bound n 16 ltac:(discriminate)) as H.
  unfold hex_digit. apply N.ltb_lt.
  destruct (N.ltb_spec (n mod 16) 10); lia.
Qed.

Lemma ascii_only_hex4 (n : N) : ascii_only (hex4 n) = true.
Proof.
  unfold hex4. cbn [ascii_only forallb]. rewrite !hex_digit_ascii. reflexivity.
Qed.

Lemma ascii_only_escape_char (c : N) : ascii_only (escape_char c) = true.
Proof.
  unfold escape_char.
  repeat match goal with
         | |- context [if ?c =? ?k then _ else _] =>
             destruct (c =? k); [reflexivity|]
         end.
  destruct ((32 <=? c) && (c <=? 126)) eqn:Hp.
  - apply andb_true_iff in Hp. destruct Hp as [_ Hhi]. apply N.leb_le in Hhi.
    cbn [ascii_only forallb]. rewrite andb_true_r. apply N.ltb_lt. lia.
  - destruct (c <? 65536).
    + change (92 :: 117 :: hex4 c) with ([92; 117] ++ hex4 c).
      rewrite ascii_only_app, ascii_only_hex4. reflexivity.
    + cbv zeta.
      change (92 :: 117 :: hex4 ?x) with ([92; 117] ++ hex4 x).
      rewrite !ascii_only_app, !ascii_only_hex4. reflexivity.
Qed.

Lemma ascii_only_encode_basestring_ascii (s : str) :
  ascii_only (encode_basestring_ascii s) = true.
Proof.
  unfold encode_basestring_ascii.
  change (34 :: flat_map escape_char s ++ [34])
    with ([34] ++ flat_map escape_char s ++ [34]).
  rewrite !ascii_only_app. cbn [ascii_only forallb]. rewrite andb_true_r.
  induction s as [|c s IH]; [reflexivity|].
  cbn [flat_map]. fold (ascii_only (escape_char c ++ flat_map escape_char s)).
  rewrite ascii_only_app, ascii_only_escape_char. exact IH.
Qed.

Lemma ascii_only_newline_indent (indent : option nat) (level : nat) :
  ascii_only (newline_indent indent level) = true.
Proof.
  destruct indent as [n|]; [|reflexivity]. unfold newline_indent.
  cbn [ascii_only forallb]. induction (n * level)%nat as [|k IH];
    [reflexivity | exact IH].
Qed.

Lemma ascii_only_item_separator (indent : option nat) (level : nat) :
  ascii_only (item_separator indent level) = true.
Proof.
  destruct indent as [n|]; [|reflexivity].
  exact (ascii_only_newline_indent (Some n) level).
Qed.

Lemma ascii_only_join (sep : str) (parts : list str) :
  ascii_only sep = true ->
  Forall (fun p => ascii_only p = true) parts ->
  ascii_only (join sep parts) = true.
Proof.
  intros Hsep. induction parts as [|p ps IH]; intros Hall; [reflexivity|].
  inversion Hall as [|? ? Hp Hps]; subst.
  destruct ps as [|q ps]; [exact Hp|].
  cbn [join] in *. rewrite !ascii_only_app, Hp, Hsep. exact (IH Hps).
Qed.

Section FormatterText.
Context {interp : Interp}.

Lemma ascii_only_iterencode (indent : option nat) (v : value) :
  float_free v = true ->
  forall level, ascii_only (iterencode indent level v) = true.
Proof.
  induction v as [|b|n|l|s|items IH|items IH] using value_induction;
    intros Hf level.
  - reflexivity.
  - destruct b; reflexivity.
  - apply ascii_only_int_str.
  - discriminate.
  - apply ascii_only_encode_basestring_ascii.
  - destruct items as [|x xs]; [reflexivity|].
    cbn [iterencode]. rewrite !ascii_only_app, !ascii_only_newline_indent.
    rewrite ascii_only_join; [reflexivity | apply ascii_only_item_separator|].
    cbn [float_free] in Hf. rewrite forallb_forall in Hf.
    rewrite Forall_forall in *. intros p Hin. apply in_map_iff in Hin.
    destruct Hin as (y & <- & Hy). apply IH; [exact Hy | apply Hf, Hy].
  - destruct items as [|x xs]; [reflexivity|].
    rewrite iterencode_dict_cons.
    rewrite !ascii_only_app, !ascii_only_newline_indent.
    rewrite ascii_only_join; [reflexivity | apply ascii_only_item_separator|].
    cbn [float_free] in Hf. rewrite forallb_forall in Hf.
    rewrite Forall_forall in *. intros p Hin. apply in_map_iff in Hin.
    destruct Hin as (kv & <- & Hkv).
    rewrite !ascii_only_app, ascii_only_encode_basestring_ascii.
    rewrite (IH kv Hkv (Hf kv Hkv)). reflexivity.
Qed.

(** X16.  The text [inspect_response] returns for a value without floats
    holds ASCII characters only: every character beyond ASCII of a key or a
    text is written as an escape. *)
Theorem inspect_response_ascii (weather_response : value) (shown : str) :
  float_free weather_response = true ->
  inspect_response weather_response = Return shown ->
  ascii_only shown = true.
Proof.
  intros Hf Hr. unfold inspect_response in Hr.
  destruct (json_dumps_inversion _ _ _ Hr) as [-> _].
  apply ascii_only_iterencode. exact Hf.
Qed.

(** X17.  [inspect_response] loses nothing: two values of JSON for which it
    returns the same text are the same value.  (The texts of the values of
    JSON are texts of Unicode characters: a high surrogate followed by a low
    one is written like the character the two spell, and is not among
    them.) *)
Theorem inspect_response_injective (a b : value) (shown : str) :
  json_compatible a = true -> json_compatible b = true ->
  inspect_response a = Return shown -> inspect_response b = Return shown ->
  a = b.
Proof.
  intros Ha Hb Ra Rb. unfold inspect_response in Ra, Rb.
  destruct (json_dumps_inversion _ _ _ Ra) as [Ea Ia].
  destruct (json_dumps_inversion _ _ _ Rb) as [Eb Ib].
  pose proof (scan_once_iterencode (Some 4%nat) a Ha Ia 0%nat
                (scans a + scans b)%nat (nesting a + nesting b)%nat []
                ltac:(lia) ltac:(lia) eq_refl) as Sa.
  pose proof (scan_once_iterencode (Some 4%nat) b Hb Ib 0%nat
                (scans a + scans b)%nat (nesting a + nesting b)%nat []
                ltac:(lia) ltac:(lia) eq_refl) as Sb.
  unfold json_text in Ea, Eb. rewrite <- Ea in Sa. rewrite <- Eb in Sb.
  rewrite Sa in Sb. injection Sb as ->. reflexivity.
Qed.

(** What holds of a raw response holds of its fields. *)
Lemma dict_get_in (d : list (str * value)) (k : str) (x : value) :
  dict_get d k = Some x -> exists k', In (k', x) d.
Proof.
  induction d as [|[k' v'] d IH]; cbn [dict_get]; [discriminate|].
  destruct (str_eqb k k').
  - intros [= ->]. exists k'. left; reflexivity.
  - intros H. destruct (IH H) as (k0 & Hin). exists k0. right; exact Hin.
Qed.

Lemma nesting_item (d : list (str * value)) (k : str) (x : value) :
  In (k, x) d ->
  (nesting x <= fold_right (fun kv n => Nat.max (nesting (snd kv)) n) O d)%nat.
Proof.
  induction d as [|kv d IH]; cbn [In fold_right]; [tauto|].
  intros [->|Hin]; [cbn [snd]; lia | specialize (IH Hin); lia].
Qed.

Lemma encoder_levels_item (d : list (str * value)) (k : str) (x : value) :
  In (k, x) d ->
  (S (encoder_levels x) <= encoder_levels (VDict d))%nat.
Proof.
  intros Hin.
  assert (H : (encoder_levels x
               <= fold_right (fun kv n => Nat.max (encoder_levels (snd kv)) n)
                    O d)%nat).
  { induction d as [|kv d IH]; cbn [In fold_right] in *; [tauto|].
    destruct Hin as [->|Hin]; [cbn [snd]; lia | specialize (IH Hin); lia]. }
  destruct d as [|kv d]; [destruct Hin|].
  cbn [encoder_levels]. lia.
Qed.

Lemma source_field_within (data : value) (k1 k2 : str) (x : value) :
  source_field data k1 k2 = Some x ->
  (ints_in_range data = true -> ints_in_range x = true) /\
  (nesting x + 2 <= nesting data)%nat /\
  (encoder_levels x + 2 <= encoder_levels data)%nat.
Proof.
  unfold source_field. destruct data as [| | | | | |d]; try discriminate.
  destruct (dict_get d k1) as [[| | | | | |inner]|] eqn:E1; try discriminate.
  intros E2.
  destruct (dict_get_in _ _ _ E1) as (k1' & H1).
  destruct (dict_get_in _ _ _ E2) as (k2' & H2).
  split; [|split].
  - cbn [ints_in_range]. rewrite !forallb_forall. intros Hd.
    specialize (Hd _ H1). cbn [snd ints_in_range] in Hd.
    rewrite forallb_forall in Hd. exact (Hd _ H2).
  - pose proof (nesting_item _ _ _ H1) as N1.
    pose proof (nesting_item _ _ _ H2) as N2.
    cbn [nesting] in *. lia.
  - pose proof (encoder_levels_item _ _ _ H1) as L1.
    pose proof (encoder_levels_item _ _ _ H2) as L2. lia.
Qed.

(** X18.  The summary the extractor builds from a raw response of JSON
    values, with ints of at most 4300 digits and nested no deeper than the
    encoder and the decoder have room for, can itself be formatted and read
    back: [inspect_response] returns a text for it, and decoding the text
    gives the summary. *)
Theorem weather_summary_round_trip (data summary : value) :
  json_compatible data = true ->
  ints_in_range data = true ->
  (encoder_levels data <= encoder_depth)%nat ->
  (nesting data <= decoder_depth)%nat ->
  extract_weather_info data = Return summary ->
  exists shown,
    inspect_response summary = Return shown /\
    json_loads shown = Some summary.
Proof.
  intros Hc Hi Hl Hn He.
  pose proof (weather_summary_compatible data summary Hc He) as Hcs.
  destruct (extract_weather_info_inversion _ _ He)
    as (a & b & c & t & f & Fa & Fb & Fc & Ft & Ff & ->).
  destruct (source_field_within _ _ _ _ Fa) as (Ia & Na & La).
  destruct (source_field_within _ _ _ _ Fb) as (Ib & Nb & Lb).
  destruct (source_field_within _ _ _ _ Fc) as (Ic & Nc & Lc).
  destruct (source_field_within _ _ _ _ Ft) as (It & Nt & Lt).
  destruct (source_field_within _ _ _ _ Ff) as (If' & Nf & Lf).
  exists (json_text (Some 4%nat)
            (VDict [ (lit "name", a); (lit "region", b);
                     (lit "local_time", c); (lit "temperature", t);
                     (lit "feels_like", f) ])).
  split.
  - unfold inspect_response. apply json_dumps_returns.
    + cbn [ints_in_range forallb snd].
      rewrite (Ia Hi), (Ib Hi), (Ic Hi), (It Hi), (If' Hi). reflexivity.
    + cbn [encoder_levels fold_right snd]. lia.
  - apply json_loads_text; [exact Hcs | |].
    + cbn [ints_in_range forallb snd].
      rewrite (Ia Hi), (Ib Hi), (Ic Hi), (It Hi), (If' Hi). reflexivity.
    + cbn [nesting fold_right snd]. lia.
Qed.

End FormatterText.

Section KeyInUrl.
Context {interp : Interp}.

(** X19.  When [load_environment] finds the key [k], in the environment or
    in the [.env] file, the one GET of a call for [loc] goes to the fixed
    address with [loc] and [k] put in as they are, nothing escaped. *)
Theorem search_weather_url_with_key (loc k : str) (w : World) :
  credential w = VStr k ->
  requested (snd (search_weather (VStr loc) w)) =
  requested w
  ++ [ lit "https://api.weatherstack.com/current?query=" ++ loc
       ++ lit "&access_key=" ++ k ].
Proof.
  intros Hk. rewrite search_weather_requested. cbn [isinstance_str].
  unfold request_url. rewrite Hk. reflexivity.
Qed.

End KeyInUrl.

(** Concrete runs. *)

Lemma load_environment_precedence_witness :
  fst (load_environment
         (world_rebound (Fails (Exn Timeout (lit "timed out")))))
  = Return (VStr (lit "l4st")).
Proof.
  exact (load_environment_precedence
           (world_rebound (Fails (Exn Timeout (lit "timed out"))))).
Defined.

Lemma search_weather_raises_only_witness :
  (isinstance_str (VStr (lit "Athens")) = false /\
   Exn KeyboardInterrupt [] = Exn TypeError (lit "Input must be a string.")) \/
  (isinstance_str (VStr (lit "Athens")) = true /\
   network world_interrupted
     (@request_url example_interp (VStr (lit "Athens"))
        (credential world_interrupted))
   = Fails (Exn KeyboardInterrupt []) /\
   is_Exception (exn_class_of (Exn KeyboardInterrupt [])) = false).
Proof.
  apply (@search_weather_raises_only example_interp (VStr (lit "Athens"))
           world_interrupted (Exn KeyboardInterrupt [])).
  reflexivity.
Defined.

Lemma search_weather_on_response_witness :
  fst (@search_weather example_interp (VStr (lit "Athens")) world_404)
  = Return (VDict []) /\
  printed (snd (@search_weather example_interp (VStr (lit "Athens")) world_404))
  = [ lit "HTTP error occurred: 404 Client Error: Not Found for url: https://api.weatherstack.com/current?query=Athens&access_key=k3y" ].
Proof.
  destruct (@search_weather_on_response example_interp (lit "Athens") world_404
              (response_of 404 (lit "Not Found") (lit "{}")) eq_refl)
    as [H1 H2].
  split; [exact H1 | exact H2].
Defined.

Lemma search_weather_on_request_error_witness :
  fst (@search_weather example_interp (VStr (lit "Athens")) world_refused)
  = Return (VDict []) /\
  printed (snd (@search_weather example_interp (VStr (lit "Athens"))
                  world_refused))
  = [ lit "Other error occurred: Connection refused" ].
Proof.
  destruct (@search_weather_on_request_error example_interp (lit "Athens")
              world_refused (Exn ConnectionError (lit "Connection refused"))
              eq_refl) as [H1 H2].
  split; [exact H1 | exact H2].
Defined.

Lemma extract_weather_info_returns_witness :
  exists name region local_time temperature feels_like,
    source_field athens_2024 (lit "location") (lit "name") = Some name /\
    source_field athens_2024 (lit "location") (lit "region") = Some region /\
    source_field athens_2024 (lit "location") (lit "localtime")
      = Some local_time /\
    source_field athens_2024 (lit "current") (lit "temperature")
      = Some temperature /\
    source_field athens_2024 (lit "current") (lit "feelslike")
      = Some feels_like /\
    athens_summary = VDict [ (lit "name", name);
                             (lit "region", region);
                             (lit "local_time", local_time);
                             (lit "temperature", temperature);
                             (lit "feels_like", feels_like) ].
Proof.
  apply (@extract_weather_info_returns example_interp athens_2024
           athens_summary).
  reflexivity.
Defined.

Lemma script_stops_at_extractor_witness :
  fst (@script example_interp world_array)
  = Raise (Exn TypeError
             (lit "list indices must be integers or slices, not str")) /\
  printed (snd (@script example_interp world_array))
  = [ @json_text example_interp (Some 4%nat) (VList [VInt 1; VInt 2]) ].
Proof.
  rewrite (@script_stops_at_extractor example_interp world_array
             (snd (@search_weather example_interp (VStr (lit "Athens"))
                     world_array))
             (VList [VInt 1; VInt 2])
             (Exn TypeError
                (lit "list indices must be integers or slices, not str"))
             eq_refl eq_refl).
  split; reflexivity.
Defined.

Lemma script_after_failed_fetch_witness :
  fst (@script example_interp world_404)
  = Raise (Exn KeyError (lit "'location'")) /\
  printed (snd (@script example_interp world_404))
  = [ lit "HTTP error occurred: 404 Client Error: Not Found for url: https://api.weatherstack.com/current?query=Athens&access_key=k3y";
      lit "{}" ].
Proof.
  destruct (@script_after_failed_fetch example_interp world_404 eq_refl)
    as (e & He & H1 & H2).
  injection He as <-. split; [exact H1 | exact H2].
Defined.

Lemma inspect_response_ascii_witness :
  exists shown,
    @inspect_response example_interp summary_unicode = Return shown /\
    ascii_only shown = true.
Proof.
  exists (@json_text example_interp (Some 4%nat) summary_unicode).
  split; [reflexivity|].
  apply (@inspect_response_ascii example_interp summary_unicode);
    reflexivity.
Defined.

Lemma inspect_response_injective_witness :
  @json_compatible example_interp summary_float = true /\
  VDict [ (lit "name", VStr (lit "Athens"));
          (lit "temperature", VFloat (lit "20.5"));
          (lit "feels_like", VFloat (lit "-1.5e-07")) ] = summary_float.
Proof.
  split; [reflexivity|].
  apply (@inspect_response_injective example_interp _ _
           (@json_text example_interp (Some 4%nat) summary_float));
    reflexivity.
Defined.

Lemma weather_summary_round_trip_witness :
  exists shown,
    @inspect_response example_interp athens_summary = Return shown /\
    @json_loads example_interp shown = Some athens_summary.
Proof.
  apply (@weather_summary_round_trip example_interp athens_2024 athens_summary);
    [reflexivity | reflexivity | vm_compute; lia | vm_compute; lia
    | reflexivity].
Defined.

Lemma search_weather_url_with_key_witness :
  requested
    (snd (@search_weather example_interp (VStr (lit "Athens"))
            (world_with_dotenv (Fails (Exn Timeout (lit "timed out"))))))
  = [ lit "https://api.weatherstack.com/current?query=Athens&access_key=f1le" ].
Proof.
  apply (@search_weather_url_with_key example_interp (lit "Athens") (lit "f1le")
           (world_with_dotenv (Fails (Exn Timeout (lit "timed out"))))).
  reflexivity.
Defined.
